(** * gish: directive expansion, conversation log and chat session

    A shallow embedding of [importFiles] (importFiles.ts), of class [LLM]
    ([fetch], [streamResponse]) and of class [GptRequest] ([submitChat],
    [fetch], [appendToLog], [getPrviousRequests]), with the properties of
    the directive expander, the conversation log and the session
    controller. *)

From Stdlib Require Import List Bool Arith ZArith NArith QArith Lia String Ascii.
Import ListNotations.
Close Scope Q_scope.

Set Implicit Arguments.

(** ** JavaScript strings

    A JavaScript string is a sequence of UTF-16 code units.  The source only
    tests code units against classes ([\s], [\w], a few literals), so a code
    unit is kept as a number. *)

Module JS.

Definition jschar := N.
Definition jsstring := list jschar.

(** An ASCII literal as a JavaScript string. *)
Definition js (s : string) : jsstring :=
  map N_of_ascii (list_ascii_of_string s).

Definition LF : jschar := 10%N.

Definition char_eqb (a b : jschar) : bool := N.eqb a b.

Fixpoint str_eqb (a b : jsstring) : bool :=
  match a, b with
  | [], [] => true
  | x :: a', y :: b' => char_eqb x y && str_eqb a' b'
  | _, _ => false
  end.

Section Classes.
Local Open Scope N_scope.

(** [\s]: WhiteSpace and LineTerminator of ECMAScript; the same set is
    stripped by [String.prototype.trim]. *)
Definition is_space (c : jschar) : bool :=
  ((9 <=? c) && (c <=? 13)) || (c =? 32) || (c =? 160) || (c =? 5760)
  || ((8192 <=? c) && (c <=? 8202)) || (c =? 8232) || (c =? 8233)
  || (c =? 8239) || (c =? 8287) || (c =? 12288) || (c =? 65279).

(** [\w] without the unicode and ignoreCase flags: [A-Za-z0-9_]. *)
Definition is_word (c : jschar) : bool :=
  ((65 <=? c) && (c <=? 90)) || ((97 <=? c) && (c <=? 122))
  || ((48 <=? c) && (c <=? 57)) || (c =? 95).

(** The class [[~\w\\./]] of the directive patterns. *)
Definition is_path_char (c : jschar) : bool :=
  (c =? 126) || is_word c || (c =? 92) || (c =? 46) || (c =? 47).

End Classes.

(** [s.split("\n")]: never empty; a final newline yields a final empty
    line. *)
Fixpoint split_nl (s : jsstring) : list jsstring :=
  match s with
  | [] => [[]]
  | c :: s' =>
      if char_eqb c LF then [] :: split_nl s'
      else match split_nl s' with
           | l :: ls => (c :: l) :: ls
           | [] => [[c]]
           end
  end.

(** [lines.join(sep)]. *)
Fixpoint join (sep : jsstring) (ls : list jsstring) : jsstring :=
  match ls with
  | [] => []
  | l :: ls' =>
      match ls' with
      | [] => l
      | _ :: _ => l ++ sep ++ join sep ls'
      end
  end.

Definition join_nl (ls : list jsstring) : jsstring := join [LF] ls.

(** [s.split(/\s+/)]: the pieces between maximal runs of white space.  A
    string that starts (ends) with white space has an empty first (last)
    piece.  [in_sep] holds while a separator run is being skipped, [acc] is
    the current piece, reversed. *)
Fixpoint split_ws_go (in_sep : bool) (acc : jsstring) (s : jsstring)
  : list jsstring :=
  match s with
  | [] => [rev acc]
  | c :: s' =>
      if is_space c then
        if in_sep then split_ws_go true [] s'
        else rev acc :: split_ws_go true [] s'
      else split_ws_go false (c :: acc) s'
  end.

Definition split_ws (s : jsstring) : list jsstring := split_ws_go false [] s.

(** [s.trim()]. *)
Fixpoint trimStart (s : jsstring) : jsstring :=
  match s with
  | c :: s' => if is_space c then trimStart s' else s
  | [] => []
  end.

Definition trim (s : jsstring) : jsstring :=
  rev (trimStart (rev (trimStart s))).

(** [s.replace(/^data: /, "")]. *)
Fixpoint strip_prefix (p s : jsstring) : option jsstring :=
  match p, s with
  | [], _ => Some s
  | x :: p', y :: s' => if char_eqb x y then strip_prefix p' s' else None
  | _ :: _, [] => None
  end.

Definition replace_data_prefix (line : jsstring) : jsstring :=
  match strip_prefix (js "data: ") line with
  | Some rest => rest
  | None => line
  end.

(** [s.replace(/\n+/g, "\n")]: every run of newlines becomes one newline. *)
Fixpoint collapse_newlines (s : jsstring) : jsstring :=
  match s with
  | [] => []
  | c :: s' =>
      if char_eqb c LF then
        match s' with
        | d :: _ => if char_eqb d LF then collapse_newlines s'
                    else c :: collapse_newlines s'
        | [] => [c]
        end
      else c :: collapse_newlines s'
  end.

(** *** Regular expressions

    The patterns of the source use classes, literals, concatenation, [*] and
    [+] only.  [line.match(re)] is used as a truth value: it is truthy
    exactly when some match exists, so greediness plays no part and the
    pattern is run by derivatives. *)

Inductive regex : Type :=
| Void : regex
| Eps : regex
| Cls : (jschar -> bool) -> regex
| Alt : regex -> regex -> regex
| Cat : regex -> regex -> regex
| Star : regex -> regex.

Definition Plus (r : regex) : regex := Cat r (Star r).

Fixpoint Lit (s : jsstring) : regex :=
  match s with
  | [] => Eps
  | c :: s' => Cat (Cls (char_eqb c)) (Lit s')
  end.

Fixpoint nullable (r : regex) : bool :=
  match r with
  | Void => false
  | Eps => true
  | Cls _ => false
  | Alt a b => nullable a || nullable b
  | Cat a b => nullable a && nullable b
  | Star _ => true
  end.

Fixpoint deriv (c : jschar) (r : regex) : regex :=
  match r with
  | Void => Void
  | Eps => Void
  | Cls p => if p c then Eps else Void
  | Alt a b => Alt (deriv c a) (deriv c b)
  | Cat a b =>
      if nullable a then Alt (Cat (deriv c a) b) (deriv c b)
      else Cat (deriv c a) b
  | Star a => Cat (deriv c a) (Star a)
  end.

(** [/^r$/]: the whole string is in the language of [r]. *)
Fixpoint match_all (r : regex) (s : jsstring) : bool :=
  match s with
  | [] => nullable r
  | c :: s' => match_all (deriv c r) s'
  end.

(** [/^r/]: some prefix of the string is in the language of [r]. *)
Fixpoint match_start (r : regex) (s : jsstring) : bool :=
  nullable r ||
  match s with
  | [] => false
  | c :: s' => match_start (deriv c r) s'
  end.

(** The language of a pattern, as a relation. *)
Inductive lang : regex -> jsstring -> Prop :=
| L_Eps : lang Eps []
| L_Cls p c : p c = true -> lang (Cls p) [c]
| L_AltL a b s : lang a s -> lang (Alt a b) s
| L_AltR a b s : lang b s -> lang (Alt a b) s
| L_Cat a b s t : lang a s -> lang b t -> lang (Cat a b) (s ++ t)
| L_StarNil a : lang (Star a) []
| L_StarCons a s t : lang a s -> lang (Star a) t -> lang (Star a) (s ++ t).

End JS.

Import JS.

(** ** importFiles *)

Module ImportFiles.

(** [/^\s*#import\s+[~\w\\./]+/] and [/^\s*#diff\s+[~\w\\./]+/]. *)
Definition directiveRe (keyword : string) : regex :=
  Cat (Star (Cls is_space))
    (Cat (Lit (js keyword))
       (Cat (Plus (Cls is_space)) (Plus (Cls is_path_char)))).

Definition importRe : regex := directiveRe "#import".
Definition diffRe : regex := directiveRe "#diff".

(** The text of the failure result: [`#import file ${filePath} was not found`]. *)
Definition not_found (filePath : jsstring) : jsstring :=
  js "#import file " ++ filePath ++ js " was not found".

(** [line.split(/\s+/)[1]]; the pattern has matched when this is evaluated,
    and then the array has a second entry ([split_ws_second] below), so the
    default is never returned. *)
Definition fname_of (line : jsstring) : jsstring :=
  nth 1 (split_ws line) [].

Section Expander.

(** [Utils.normalizePath]; utils.ts is not among the sources. *)
Variable normalizePath : jsstring -> jsstring.

(** The file system as [fs.readFileSync(path, "utf-8")] sees it: [None] when
    the call throws. *)
Variable readFileSync : jsstring -> option jsstring.

(** The largest number of arguments a call takes in the engine that runs
    the code (about 125000 in Node with its default stack): a call with
    more throws a RangeError.  [push(...lines)] passes every line as an
    argument of its own. *)
Variable max_arguments : N.

(** The body of [try]: the lines that [push] adds to [modifiedLines], or
    [None] when [fs.readFileSync] throws or the call of [push] does.  The
    one [catch] receives both, and [modifiedLines] is as before then. *)
Definition read_lines (filePath : jsstring) : option (list jsstring) :=
  match readFileSync filePath with
  | Some fileContents =>
      let fileLines := split_nl fileContents in
      if (N.of_nat (List.length fileLines) <=? max_arguments)%N
      then Some fileLines
      else None
  | None => None
  end.

(** The body of [for (const line of lines)], with the two arrays the loop
    pushes to. *)
Fixpoint importLoop (lines : list jsstring) (modifiedLines : list jsstring)
    (toDiffFiles : list jsstring) : bool * jsstring * list jsstring :=
  match lines with
  | [] => (true, join_nl modifiedLines, toDiffFiles)
  | line :: rest =>
      let importFile := match_start importRe line in
      let diffFile := match_start diffRe line in
      if importFile || diffFile then
        let fname := fname_of line in
        let filePath := normalizePath fname in
        let toDiffFiles :=
          if diffFile then toDiffFiles ++ [filePath] else toDiffFiles in
        match read_lines filePath with
        | Some fileLines =>
            importLoop rest (modifiedLines ++ fileLines) toDiffFiles
        | None => (false, not_found filePath, toDiffFiles)
        end
      else importLoop rest (modifiedLines ++ [line]) toDiffFiles
  end.

Definition importFiles (content : jsstring) : bool * jsstring * list jsstring :=
  importLoop (split_nl content) [] [].

End Expander.

(** Modelled from the spec: [Utils.normalizePath] of utils.ts, which is not
    among the sources; a leading [~] becomes the home directory and any other
    path is returned as it is. *)
Definition normalizePath_spec (home : jsstring) (p : jsstring) : jsstring :=
  match p with
  | c :: rest => if char_eqb c 126%N then home ++ rest else p
  | [] => []
  end.

(** The path a directive line names, in the words of the spec: the first
    white-space delimited token after the directive word, leading white
    space before [#] being permitted. *)
Definition directive_path (line : jsstring) : jsstring :=
  nth 1 (split_ws (trimStart line)) [].

(** [t.startsWith(s)]. *)
Fixpoint is_prefix (s t : jsstring) : bool :=
  match s, t with
  | [], _ => true
  | x :: s', y :: t' => char_eqb x y && is_prefix s' t'
  | _ :: _, [] => false
  end.

(** [t.includes(s)]. *)
Fixpoint contains (t s : jsstring) : bool :=
  is_prefix s t ||
  match t with
  | [] => false
  | _ :: t' => contains t' s
  end.

End ImportFiles.

(** ** Values of the runtime

    What [JSON.parse] returns, property reads on such values, and the ways a
    call can end. *)

Module Json.

#[warnings="-register-all"] Inductive json : Type :=
| JNull : json
| JBool : bool -> json
| JNum : Q -> json
| JStr : jsstring -> json
| JArr : list json -> json
| JObj : list (jsstring * json) -> json.

(** A value that may be [undefined] ([None]). *)
Definition jsval := option json.

Inductive js_error : Type :=
| FsError (path : jsstring)       (* fs.readFileSync on a missing file *)
| SyntaxError                     (* JSON.parse *)
| TypeError                       (* property of null/undefined, call of a non-function *)
| ApiError (message : jsstring) (response : bool).  (* rejected request *)

(** A call returns, throws, or (an [await] on a promise nobody settles)
    never comes back. *)
Inductive outcome (A : Type) : Type :=
| Ret (a : A)
| Throw (e : js_error)
| Pending.

Arguments Ret {A} a.
Arguments Throw {A} e.
Arguments Pending {A}.

Definition and_then {A B} (o : outcome A) (k : A -> outcome B) : outcome B :=
  match o with
  | Ret a => k a
  | Throw e => Throw e
  | Pending => Pending
  end.

Fixpoint lookup (name : jsstring) (fields : list (jsstring * json)) : jsval :=
  match fields with
  | [] => None
  | (k, v) :: rest => if str_eqb k name then Some v else lookup name rest
  end.

(** [v.name], for the names the source reads (messages, choices, delta,
    content): only an object can have them. *)
Definition get_field (v : jsval) (name : jsstring) : outcome jsval :=
  match v with
  | None | Some JNull => Throw TypeError
  | Some (JObj fields) => Ret (lookup name fields)
  | Some _ => Ret None
  end.

(** [v[0]]. *)
Definition get_first (v : jsval) : outcome jsval :=
  match v with
  | None | Some JNull => Throw TypeError
  | Some (JArr items) => Ret (hd_error items)
  | Some (JStr s) => Ret (option_map (fun c => JStr [c]) (hd_error s))
  | Some (JObj fields) => Ret (lookup (js "0") fields)
  | Some _ => Ret None
  end.

(** Truthiness, as [if (v)] tests it. *)
Definition truthy (v : jsval) : bool :=
  match v with
  | None | Some JNull => false
  | Some (JBool b) => b
  | Some (JNum q) => negb (Z.eqb (Qnum q) 0)
  | Some (JStr s) => match s with [] => false | _ :: _ => true end
  | Some (JArr _) | Some (JObj _) => true
  end.

(** [array.push(x)] on a value of unknown shape. *)
Definition push (v : jsval) (x : json) : outcome (list json) :=
  match v with
  | Some (JArr items) => Ret (items ++ [x])
  | _ => Throw TypeError
  end.

(** A message [{ role, content }]. *)
Definition message (role : string) (content : jsstring) : json :=
  JObj [(js "role", JStr (js role)); (js "content", JStr content)].

End Json.

Import Json.

(** ** The process and its surroundings *)

Module World.

(** The log file [Settings.getSetting("LOG_FILE")].  Its text is kept as the
    value [JSON.parse] returns for it: [JSON.stringify(v, null, 2) + "\n"]
    parses back to [v] for the values written here (arrays, objects, strings
    and finite numbers), and the source looks at the file only through
    [JSON.parse].  [Garbled] is a file whose text [JSON.parse] rejects. *)
Inductive log_file : Type :=
| Absent
| Garbled
| Holds (contents : json).

Record api_request : Type := {
  req_model : jsstring;
  req_messages : list json;
  req_stream : bool }.

(** What the process does to the outside, in order. *)
Inductive event : Type :=
| ApiCall (req : api_request)            (* openai.createChatCompletion *)
| LogWrite (contents : json)             (* fs.writeFileSync(LOG_FILE, ...) *)
| ConsoleLog (text : jsstring)
| ConsoleError (text : jsstring)
| Diagnostic                             (* console.error of an error, a status, a payload *)
| StdoutWrite (text : jsstring)
| Estimate (tokens : Z)                  (* `Estimated request tokens: ${n}` *)
| Stats (usage : option (Z * jsstring)) (duration : Q) (estimated : bool)
| Saved (response : jsstring) (diffFile : option jsstring) (save : bool)
| Spawn (command : jsstring) (args : list jsstring).

Record world : Type := {
  log : log_file;
  trace : list event }.

(** Code that reads and writes the world and may throw. *)
Definition M (A : Type) : Type := world -> outcome A * world.

Definition ret {A} (a : A) : M A := fun w => (Ret a, w).

Definition bind {A B} (c : M A) (k : A -> M B) : M B :=
  fun w =>
    match c w with
    | (Ret a, w') => k a w'
    | (Throw e, w') => (Throw e, w')
    | (Pending, w') => (Pending, w')
    end.

Definition throw {A} (e : js_error) : M A := fun w => (Throw e, w).

Definition lift {A} (o : outcome A) : M A := fun w => (o, w).

Definition emit (e : event) : M unit :=
  fun w => (Ret tt, {| log := log w; trace := trace w ++ [e] |}).

Definition emits (es : list event) : M unit :=
  fun w => (Ret tt, {| log := log w; trace := trace w ++ es |}).

Definition read_log : M log_file := fun w => (Ret (log w), w).

Definition write_log (v : json) : M unit :=
  fun w => (Ret tt, {| log := Holds v; trace := trace w ++ [LogWrite v] |}).

Definition when (b : bool) (c : M unit) : M unit := if b then c else ret tt.

End World.

Import World.

Declare Scope js_scope.
Delimit Scope js_scope with M.
Notation "x <- c ;; k" := (bind c (fun x => k))
  (at level 61, c at next level, right associativity) : js_scope.
Notation "c ;;; k" := (bind c (fun _ => k))
  (at level 61, right associativity) : js_scope.
Local Open Scope js_scope.

(** ** Class LLM and class GptRequest *)

Module Chat.

Record GptResult : Type := { text : jsstring; tokens : Z }.

(** An entry of the log: [{ messages, time, tokens, cost, duration }]. *)
Record LogEntry : Type := {
  messages : list json;
  time : jsstring;
  entry_tokens : Z;
  cost : jsstring;
  duration : Q }.

(** The command-line options the core reads. *)
Record Options : Type := {
  stream : bool;
  chat : bool;
  dryrun : bool;
  stats : bool;
  save : bool;
  model : option jsstring;
  diff : option jsstring;
  prompt : option jsstring }.

(** [if (options["model"])] and the like: a string option is truthy when it
    is given and not empty. *)
Definition given (o : option jsstring) : option jsstring :=
  match o with
  | Some (c :: s) => Some (c :: s)
  | _ => None
  end.

(** [completion.data] of a batch request. *)
Record completion : Type := {
  usage : option Z;             (* response.usage.total_tokens *)
  choices : list jsstring }.    (* choices[i].message.content *)

(** [res.data] of a streaming request: the [data] events it emits and,
    when the transport fails after the stream has started, the [error] event
    that follows them. *)
Record event_stream : Type := {
  stream_usage : option Z;      (* res.data.usage.total_tokens *)
  chunks : list jsstring;
  failure : option js_error }.

(** Everything the code takes from its runtime: settings, libraries, the
    file system, the provider and the clock. *)
Record Runtime : Type := {
  LOG_FILE : jsstring;
  DEFAULT_MODEL : jsstring;
  DIFF_COMMAND : jsstring;
  isatty : bool;
  normalizePath : jsstring -> jsstring;
  readFileSync : jsstring -> option jsstring;
  max_arguments : N;                          (* arguments one call takes *)
  engine_message : js_error -> jsstring;      (* error.message of a built-in error *)
  JSON_parse : jsstring -> option json;
  countTokens : jsstring -> Z;                (* gptoken *)
  cost_text : Z -> jsstring;                  (* "$" + tokens * TOKEN_COST.toFixed(6) *)
  createChatCompletion : api_request -> js_error + completion;
  createChatCompletionStream : api_request -> js_error + event_stream;
  time_start : Z;                             (* new Date().getTime() *)
  time_end : Z;
  timestamp : jsstring;                       (* new Date().toLocaleString() *)
  saveFiles : jsstring -> option jsstring -> bool -> option jsstring }.

(** [error.message]. *)
Definition message_of (rt : Runtime) (e : js_error) : jsstring :=
  match e with
  | ApiError m _ => m
  | _ => engine_message rt e
  end.

Section Program.

Variable rt : Runtime.

(** *** class LLM *)

(** [if (options["model"]) this.model = options["model"]], [this.model]
    being the default model before. *)
Definition the_model (options : Options) : jsstring :=
  match given (model options) with
  | Some m => m
  | None => DEFAULT_MODEL rt
  end.

(** [{ text: "Error:" + error.message, tokens: 0 }]. *)
Definition error_result (e : js_error) : GptResult :=
  {| text := js "Error:" ++ message_of rt e; tokens := 0 |}.

Definition has_response (e : js_error) : bool :=
  match e with
  | ApiError _ r => r
  | _ => false
  end.

(** The [catch] of the batch request. *)
Definition catch_batch (e : js_error) : M GptResult :=
  (if has_response e then emit Diagnostic ;;; emit Diagnostic
   else emit (ConsoleError (message_of rt e))) ;;;
  ret (error_result e).

Definition batch_request (queries : list json) (options : Options)
  : api_request :=
  {| req_model := the_model options; req_messages := queries;
     req_stream := false |}.

(** The non-streaming part of [LLM.fetch]. *)
Definition fetch_batch (queries : list json) (options : Options) : M GptResult :=
  let req := batch_request queries options in
  emit (ApiCall req) ;;;
  match createChatCompletion rt req with
  | inl e => catch_batch e
  | inr response =>
      let tokens := match usage response with Some n => n | None => 0%Z end in
      let text := match choices response with c :: _ => c | [] => [] end in
      (* const textWithQuery = queries[0].content + text; its token count
         is computed and dropped *)
      match get_field (hd_error queries) (js "content") with
      | Throw e => catch_batch e
      | _ => ret {| text := text; tokens := tokens |}
      end
  end.

(** The variables the [data] handler of [streamResponse] closes over:
    [response], [first], the value the promise was resolved with (the first
    [resolve] wins), and what was written meanwhile. *)
Record stream_state : Type := {
  response : jsstring;
  first : bool;
  resolved : option GptResult;
  written : list event }.

(** [JSON.parse(message)] then [parsed.choices[0].delta.content]. *)
Definition delta_content (message : jsstring) : outcome jsval :=
  match JSON_parse rt message with
  | None => Throw SyntaxError
  | Some parsed =>
      and_then (get_field (Some parsed) (js "choices")) (fun cs =>
      and_then (get_first cs) (fun c =>
      and_then (get_field c (js "delta")) (fun d =>
      get_field d (js "content"))))
  end.

Definition write (st : stream_state) (e : event) : stream_state :=
  {| response := response st; first := first st; resolved := resolved st;
     written := written st ++ [e] |}.

(** [for (const line of lines)] of the handler; [return] at [[DONE]]
    leaves the rest of the chunk unread. *)
Fixpoint on_lines (res_usage : option Z) (lines : list jsstring)
    (st : stream_state) : stream_state :=
  match lines with
  | [] => st
  | line :: rest =>
      let message := replace_data_prefix line in
      if str_eqb message (js "[DONE]") then
        let tokens := match res_usage with Some n => n | None => 0%Z end in
        {| response := response st; first := first st;
           resolved := match resolved st with
                       | Some r => Some r
                       | None => Some {| text := response st; tokens := tokens |}
                       end;
           written := written st ++ [StdoutWrite [LF]] |}
      else
        match delta_content message with
        | Ret content =>
            if truthy content then
              match content with
              | Some (JStr text) =>
                  if first st && match_all (Star (Cls is_space)) text then
                    (* ignore the first empty line *)
                    on_lines res_usage rest
                      {| response := response st; first := false;
                         resolved := resolved st; written := written st |}
                  else
                    let text := collapse_newlines text in
                    on_lines res_usage rest
                      {| response := response st ++ text; first := false;
                         resolved := resolved st;
                         written := written st ++ [StdoutWrite text] |}
              | _ =>
                  (* text.match / text.replace is not a function *)
                  on_lines res_usage rest (write st Diagnostic)
              end
            else on_lines res_usage rest st
        | _ => on_lines res_usage rest (write st Diagnostic)
        end
  end.

(** The handler of one [data] event. *)
Definition on_data (res_usage : option Z) (st : stream_state)
    (data : jsstring) : stream_state :=
  let lines :=
    filter (fun line => negb (str_eqb (trim line) [])) (split_nl data) in
  on_lines res_usage lines st.

Definition stream_start : stream_state :=
  {| response := []; first := true; resolved := None; written := [] |}.

(** All the [data] events of a stream, handled in order.  [data] is the
    only event [streamResponse] listens to: on the [error] event of a
    transport that fails no code of the program runs, so [failure res] is
    not looked at and settles nothing. *)
Definition run_stream (res : event_stream) : stream_state :=
  fold_left (on_data (stream_usage res)) (chunks res) stream_start.

(** [if (options["prompt"])]: the prompt file is read and pushed to
    [messages], which is the caller's array. *)
Definition with_prompt (queries : list json) (options : Options)
  : js_error + list json :=
  match given (prompt options) with
  | Some file =>
      match readFileSync rt file with
      | Some promptContent => inr (queries ++ [message "system" promptContent])
      | None => inl (FsError file)
      end
  | None => inr queries
  end.

Definition stream_request (messages : list json) (options : Options)
  : api_request :=
  {| req_model := the_model options; req_messages := messages;
     req_stream := true |}.

(** [streamResponse]: the value the promise is resolved with, and the
    [queries] array as the call leaves it.  The promise is never rejected;
    it stays pending when the events end without [[DONE]], by a transport
    failure or otherwise. *)
Definition streamResponse (queries : list json) (options : Options)
  : M (GptResult * list json) :=
  let catch (messages : list json) (e : js_error) :=
    emit Diagnostic ;;; ret (error_result e, messages) in
  match with_prompt queries options with
  | inl e => catch queries e
  | inr messages =>
      emit (ApiCall (stream_request messages options)) ;;;
      match createChatCompletionStream rt (stream_request messages options) with
      | inl e => catch messages e
      | inr res =>
          let st := run_stream res in
          emits (written st) ;;;
          match resolved st with
          | Some r => ret (r, messages)
          | None => lift Pending
          end
      end
  end.

(** [LLM.fetch]. *)
Definition LLM_fetch (queries : list json) (options : Options)
  : M (GptResult * list json) :=
  if stream options then streamResponse queries options
  else r <- fetch_batch queries options ;; ret (r, queries).

(** *** class GptRequest *)

(** [x.slice(-1)]. *)
Definition slice_last (v : json) : outcome json :=
  match v with
  | JArr items => Ret (JArr (skipn (List.length items - 1) items))
  | JStr s => Ret (JStr (skipn (List.length s - 1) s))
  | _ => Throw TypeError
  end.

Definition length_is_0 (v : json) : bool :=
  match v with
  | JArr [] | JStr [] => true
  | _ => false
  end.

Definition parse_log (f : log_file) : outcome json :=
  match f with
  | Absent => Throw (FsError (LOG_FILE rt))
  | Garbled => Throw SyntaxError
  | Holds v => Ret v
  end.

Definition getPrviousRequests : M jsval :=
  f <- read_log ;;
  logContents <- lift (parse_log f) ;;
  lastEntry <- lift (slice_last logContents) ;;
  if length_is_0 lastEntry then ret (Some (JArr []))
  else
    entry <- lift (get_first (Some lastEntry)) ;;
    lift (get_field entry (js "messages")).

Definition appendToLog (jsonLog : json) : M unit :=
  f <- read_log ;;
  (match f with
   | Absent => write_log (JArr [])
   | _ => ret tt
   end) ;;;
  f <- read_log ;;
  logArray <- lift (parse_log f) ;;
  items <- lift (push (Some logArray) jsonLog) ;;
  write_log (JArr items).

(** The object [fetch] hands to [appendToLog]. *)
Definition jsonLog (e : LogEntry) : json :=
  JObj [(js "messages", JArr (messages e)); (js "time", JStr (time e));
        (js "tokens", JNum (inject_Z (entry_tokens e)));
        (js "cost", JStr (cost e)); (js "duration", JNum (duration e))].

(** [tokens] after [if (tokens === 0) tokens = countTokens(request + text)]. *)
Definition counted_tokens (request : jsstring) (gptResult : GptResult) : Z :=
  if Z.eqb (tokens gptResult) 0 then countTokens rt (request ++ text gptResult)
  else tokens gptResult.

Definition cost_of (options : Options) (tokens : Z) : jsstring :=
  match given (model options) with
  | None => cost_text rt tokens
  | Some m =>
      if str_eqb m (js "gpt-3.5-turbo") then cost_text rt tokens
      else js "Cost only available for GPT-3.5-turbo"
  end.

(** [fetch] up to the backend call: the message list. *)
Definition opening (options : Options) (request : jsstring) : M (list json) :=
  previous <- (if chat options then getPrviousRequests
               else ret (Some (JArr []))) ;;
  lift (push previous (message "user" request)).

(** The statistics line, when [options.stats]. *)
Definition stats_line (options : Options) (tokens : Z) (cost : jsstring)
    (duration : Q) : event :=
  Stats (if Z.ltb 0 tokens then Some (tokens, cost) else None) duration
    (stream options).

(** The entry [fetch] logs for a backend result. *)
Definition log_entry (options : Options) (request : jsstring)
    (gptResult : GptResult) (messages : list json) : LogEntry :=
  let tokens := counted_tokens request gptResult in
  {| messages := messages ++ [message "assistant" (trim (text gptResult))];
     time := timestamp rt;
     entry_tokens := tokens;
     cost := cost_of options tokens;
     duration := Qmake (time_end rt - time_start rt) 1000 |}.

(** [fetch] from the backend result on. *)
Definition closing (options : Options) (request : jsstring)
    (useSpinner : bool) (r : GptResult * list json) : M jsstring :=
  let gptResult := fst r in
  let entry := log_entry options request gptResult (snd r) in
  let response := trim (text gptResult) in
  when (negb (stream options) && useSpinner) (emit (ConsoleLog response)) ;;;
  when (stats options)
    (emit (stats_line options (entry_tokens entry) (cost entry)
             (duration entry))) ;;;
  appendToLog (jsonLog entry) ;;;
  ret response.

Definition fetch (options : Options) (request : jsstring) (useSpinner : bool)
  : M jsstring :=
  messages <- opening options request ;;
  r <- LLM_fetch messages options ;;
  closing options request useSpinner r.

(** What [submitChat] does once [request] is known. *)
Definition submit (type : jsstring) (options : Options) (useSpinner : bool)
    (request : jsstring) : M unit :=
  match ImportFiles.importFiles (normalizePath rt) (readFileSync rt)
          (max_arguments rt) request with
  | (success, text, diffFiles) =>
      if negb success then emit (ConsoleError text)
      else if dryrun options then
        emit (ConsoleLog text) ;;; emit (Estimate (countTokens rt text))
      else
        response <- fetch options text useSpinner ;;
        if str_eqb type (js "input") || save options then
          let diffFile :=
            match given (diff options), diffFiles with
            | None, d :: _ => Some d
            | _, _ => diff options
            end in
          let newFile := saveFiles rt response diffFile (save options) in
          emit (Saved response diffFile (save options)) ;;;
          match given diffFile, given newFile with
          | Some d, Some n => emit (Spawn (DIFF_COMMAND rt) [n; d])
          | _, _ => ret tt
          end
        else ret tt
  end.

(** The request text of [submitChat]: the input file, or the words asked.
    [None] when the usage error was printed and [submitChat] returned. *)
Definition read_request (type : jsstring) (args : list jsstring)
  : M (option jsstring) :=
  if str_eqb type (js "input") then
    match args with
    | _ :: inputFile :: _ =>
        match readFileSync rt inputFile with
        | Some request => ret (Some request)
        | None => throw (FsError inputFile)
        end
    | _ =>
        emit (ConsoleError (js "Need input file name in input command")) ;;;
        ret None
    end
  else ret (Some (join (js " ") (tl args))).

Definition submitChat (type : jsstring) (args : list jsstring)
    (options : Options) (useSpinner : bool) : M unit :=
  let useSpinner := if isatty rt then useSpinner else false in
  r <- read_request type args ;;
  match r with
  | Some request => submit type options useSpinner request
  | None => ret tt
  end.

End Program.

End Chat.

Import Chat.

(** ** Notions used to state the properties *)

Module Props.

Import ImportFiles.

(** A directive line, as the loop of [importFiles] tests it. *)
Definition is_directive (line : jsstring) : bool :=
  match_start importRe line || match_start diffRe line.

(** A text none of whose lines is a directive. *)
Definition no_directive (content : jsstring) : bool :=
  forallb (fun line => negb (is_directive line)) (split_nl content).

(** The two arrays of the loop after [lines], when no [try] failed. *)
Fixpoint loop_prefix (normalizePath : jsstring -> jsstring)
    (readFileSync : jsstring -> option jsstring) (max_arguments : N)
    (lines : list jsstring) (modifiedLines toDiffFiles : list jsstring)
  : option (list jsstring * list jsstring) :=
  match lines with
  | [] => Some (modifiedLines, toDiffFiles)
  | line :: rest =>
      if is_directive line then
        let filePath := normalizePath (fname_of line) in
        let toDiffFiles :=
          if match_start diffRe line then toDiffFiles ++ [filePath]
          else toDiffFiles in
        match read_lines readFileSync max_arguments filePath with
        | Some fileLines =>
            loop_prefix normalizePath readFileSync max_arguments rest
              (modifiedLines ++ fileLines) toDiffFiles
        | None => None
        end
      else
        loop_prefix normalizePath readFileSync max_arguments rest
          (modifiedLines ++ [line]) toDiffFiles
  end.

(** The log as a sequence of entries: a missing file counts as empty, a
    file that is not a JSON array has none. *)
Definition log_items (f : log_file) : option (list json) :=
  match f with
  | Absent => Some []
  | Holds (JArr items) => Some items
  | _ => None
  end.

Definition log_of (items : option (list json)) : log_file :=
  match items with
  | None => Absent
  | Some items => Holds (JArr items)
  end.

(** [appendToLog] for each entry in turn. *)
Fixpoint append_all (rt : Runtime) (entries : list LogEntry) : M unit :=
  match entries with
  | [] => ret tt
  | e :: rest => appendToLog rt (jsonLog e) ;;; append_all rt rest
  end.

(** Events that reach neither the backend nor the log. *)
Definition console_only (e : event) : bool :=
  match e with
  | ApiCall _ | LogWrite _ => false
  | _ => true
  end.

(** [w'] comes from [w] without a backend call or a write to the log. *)
Definition untouched (w w' : world) : Prop :=
  log w' = log w /\
  exists evs, trace w' = trace w ++ evs /\ forallb console_only evs = true.

(** The lines of a chunk the [data] handler looks at. *)
Definition kept_lines (data : jsstring) : list jsstring :=
  filter (fun line => negb (str_eqb (trim line) [])) (split_nl data).

(** The text the [data] handler builds from fragments: an empty fragment
    adds nothing, the first non-empty fragment is left out when it is white
    space only, and inside every other fragment each run of newlines
    becomes one newline. *)
Fixpoint assemble (first : bool) (fragments : list jsstring) : jsstring :=
  match fragments with
  | [] => []
  | [] :: rest => assemble first rest
  | f :: rest =>
      if first && forallb is_space f then assemble false rest
      else collapse_newlines f ++ assemble false rest
  end.

(** The write that creates a missing log. *)
Definition created (f : log_file) : list event :=
  match f with
  | Absent => [LogWrite (JArr [])]
  | _ => []
  end.

(** An empty fragment. *)
Definition is_nil (f : jsstring) : bool :=
  match f with
  | [] => true
  | _ :: _ => false
  end.

(** [res.data.usage ? res.data.usage.total_tokens : 0]. *)
Definition usage_or_0 (u : option Z) : Z :=
  match u with
  | Some n => n
  | None => 0%Z
  end.

(** The line is the end-of-stream signal. *)
Definition is_done (line : jsstring) : bool :=
  str_eqb (replace_data_prefix line) (js "[DONE]").

(** A line of the stream that carries the text fragment [fragment]. *)
Definition carries (rt : Runtime) (line fragment : jsstring) : Prop :=
  is_done line = false /\
  delta_content rt (replace_data_prefix line) = Ret (Some (JStr fragment)).

(** The first non-empty fragment, if there is one, is not white space
    only. *)
Fixpoint opens_with_text (fragments : list jsstring) : bool :=
  match fragments with
  | [] => true
  | [] :: rest => opens_with_text rest
  | f :: _ => negb (forallb is_space f)
  end.

(** No two newlines in a row. *)
Fixpoint single_newlines (s : jsstring) : bool :=
  match s with
  | [] => true
  | c :: s' =>
      match s' with
      | d :: _ => negb (char_eqb c LF && char_eqb d LF) && single_newlines s'
      | [] => true
      end
  end.

(** What [fetch] prints between the backend result and the log entry. *)
Definition shown (rt : Runtime) (options : Options) (request : jsstring)
    (useSpinner : bool) (gptResult : GptResult) (messages : list json)
  : list event :=
  let entry := log_entry rt options request gptResult messages in
  (if negb (stream options) && useSpinner
   then [ConsoleLog (trim (text gptResult))] else [])
  ++ (if stats options
      then [stats_line options (entry_tokens entry) (cost entry)
              (duration entry)]
      else []).


(** The [tokens] property of the last entry of the log. *)
Definition last_logged_tokens (w : world) : jsval :=
  match log_items (log w) with
  | Some items =>
      match get_field (last (map Some items) None) (js "tokens") with
      | Ret v => v
      | _ => None
      end
  | None => None
  end.

End Props.

(** ** Sample surroundings for the examples *)

Module Sample.

Definition home : jsstring := js "/home/user".

(** A directory with two files, [a.txt] of two lines and [b.txt] of one. *)
Definition files (path : jsstring) : option jsstring :=
  if str_eqb path (js "a.txt") then Some (js "hello" ++ [LF] ++ js "world")
  else if str_eqb path (js "b.txt") then Some (js "there")
  else None.

(** The arguments a call takes: Node with its default stack. *)
Definition node_limit : N := 125000.

(** A directory whose only file is named [#import]. *)
Definition keyword_file (path : jsstring) : option jsstring :=
  if str_eqb path (js "#import") then Some (js "surprise") else None.

Definition quoted (s : jsstring) : jsstring := 34%N :: s ++ [34%N].

(** The JSON text of a stream payload whose [content] has the string
    literal [literal], and the value it parses to. *)
Definition delta_payload (literal : jsstring) : jsstring :=
  js "{" ++ quoted (js "choices") ++ js ":[{" ++ quoted (js "delta")
  ++ js ":{" ++ quoted (js "content") ++ js ":" ++ quoted literal
  ++ js "}}]}".

Definition delta_value (content : jsstring) : json :=
  JObj [(js "choices",
         JArr [JObj [(js "delta", JObj [(js "content", JStr content)])]])].

(** [JSON.parse] on the payloads of the examples. *)
Definition payloads : list (jsstring * json) :=
  [ (delta_payload (js "Hel"), delta_value (js "Hel"));
    (delta_payload (js "lo"), delta_value (js "lo"));
    (delta_payload (js "a\n\nb"), delta_value (js "a" ++ [LF; LF] ++ js "b")) ].

Definition parse (text : jsstring) : option json := lookup text payloads.

(** One [data] event with one server-sent line. *)
Definition sse (payload : jsstring) : jsstring :=
  js "data: " ++ payload ++ [LF; LF].

Definition error_text (e : js_error) : jsstring :=
  match e with
  | FsError path => js "ENOENT: no such file or directory, open " ++ path
  | SyntaxError => js "Unexpected token in JSON"
  | TypeError => js "Cannot read properties of undefined"
  | ApiError m _ => m
  end.

(** A runtime around a provider that answers every request the same way;
    its token counter counts code units and its cost text is fixed. *)
Definition runtime (batch : js_error + completion)
    (streamed : js_error + event_stream) : Runtime :=
  {| LOG_FILE := js "gish.log";
     DEFAULT_MODEL := js "gpt-3.5-turbo";
     DIFF_COMMAND := js "vimdiff";
     isatty := true;
     normalizePath := ImportFiles.normalizePath_spec home;
     readFileSync := files;
     max_arguments := node_limit;
     engine_message := error_text;
     JSON_parse := parse;
     countTokens := fun s => Z.of_nat (List.length s);
     cost_text := fun _ => js "$0.00002";
     createChatCompletion := fun _ => batch;
     createChatCompletionStream := fun _ => streamed;
     time_start := 1000;
     time_end := 3500;
     timestamp := js "1/1/2024, 12:00:00 PM";
     saveFiles := fun _ _ _ => None |}.

Definition options (streaming : bool) : Options :=
  {| stream := streaming; chat := false; dryrun := false; stats := true;
     save := false; model := None; diff := None; prompt := None |}.

Definition no_batch : js_error + completion :=
  inl (ApiError (js "unused") false).

Definition no_stream : js_error + event_stream :=
  inl (ApiError (js "unused") false).

(** The fragments [Hel], [lo], then the end of the stream, without usage. *)
Definition hello_stream : event_stream :=
  {| stream_usage := None;
     chunks := [sse (delta_payload (js "Hel")); sse (delta_payload (js "lo"));
                sse (js "[DONE]")];
     failure := None |}.

(** One fragment with a blank line in it, then the end of the stream. *)
Definition paragraphs_stream : event_stream :=
  {| stream_usage := None;
     chunks := [sse (delta_payload (js "a\n\nb")); sse (js "[DONE]")];
     failure := None |}.

Definition fresh : world := {| log := Absent; trace := [] |}.

(** A batch request that the transport fails. *)
Definition hang_up : js_error := ApiError (js "socket hang up") false.

Definition dry_run : Options :=
  {| stream := false; chat := false; dryrun := true; stats := false;
     save := false; model := None; diff := None; prompt := None |}.

End Sample.

(** ** Start of the process: the API key *)

Module Startup.

(** [s.trimEnd()]. *)
Definition trimEnd (s : jsstring) : jsstring := rev (trimStart (rev s)).

(** What the top of the module of class [LLM] reads: the environment
    variable, the home directory and the file system. *)
Record Env : Type := {
  OPENAI_API_KEY : option jsstring;           (* process.env.OPENAI_API_KEY *)
  homedir : jsstring;                         (* os.homedir() *)
  existsSync : jsstring -> bool;
  readFile : jsstring -> option jsstring }.   (* fs.readFileSync, None when it throws *)

(** [`${os.homedir()}/.openai`]. *)
Definition key_file (env : Env) : jsstring := homedir env ++ js "/.openai".

(** [API_KEY] when the [if]/[else] has run; [None] is [null].  An error of
    the file system is ignored. *)
Definition API_KEY (env : Env) : option jsstring :=
  match given (OPENAI_API_KEY env) with
  | Some key => Some key
  | None =>
      if existsSync env (key_file env) then
        match readFile env (key_file env) with
        | Some contents => Some (trimEnd contents)
        | None => None
        end
      else None
  end.

(** The key the process runs with; [None] when [if (!API_KEY)] prints the
    error and calls [process.exit(1)]. *)
Definition startup (env : Env) : option jsstring := given (API_KEY env).

End Startup.

(** ** The first version of class LLM *)

Module Legacy.

(** What [fetch] prints with [console.log]: a text, or a value (a status,
    a payload). *)
Inductive printed : Type :=
| PrintedText (text : jsstring)
| PrintedValue.

(** [fetch(query)] of the first class [LLM]: the request it sends, what it
    returns ([None] is [undefined], the value of a call that leaves through
    the [catch]) and what it prints. *)
Definition request (query : jsstring) : api_request :=
  {| req_model := js "gpt-3.5-turbo";
     req_messages := [message "user" query];
     req_stream := false |}.

Definition fetch (rt : Runtime) (query : jsstring)
  : option completion * list printed :=
  match createChatCompletion rt (request query) with
  | inr response => (Some response, [])
  | inl e =>
      (None,
       if has_response e then [PrintedValue; PrintedValue]
       else [PrintedText (message_of rt e)])
  end.

End Legacy.

(** ** Notions for the further properties *)

Module Cover.

Import ImportFiles Props.

(** The file of a directive line can be spliced in: it can be read and has
    no more lines than a call takes arguments.  A line that is no directive
    needs no file. *)
Definition usable (normalizePath : jsstring -> jsstring)
    (readFileSync : jsstring -> option jsstring) (max_arguments : N)
    (line : jsstring) : bool :=
  negb (is_directive line) ||
  match readFileSync (normalizePath (fname_of line)) with
  | Some fileContents =>
      (N.of_nat (List.length (split_nl fileContents)) <=? max_arguments)%N
  | None => false
  end.

(** What one line becomes: itself, or the lines of its file. *)
Definition expand_line (normalizePath : jsstring -> jsstring)
    (readFileSync : jsstring -> option jsstring) (line : jsstring)
  : list jsstring :=
  if is_directive line then
    match readFileSync (normalizePath (fname_of line)) with
    | Some fileContents => split_nl fileContents
    | None => []
    end
  else [line].

(** The lines the loop looks at: all of them, or those up to and including
    the first directive whose file cannot be spliced in. *)
Fixpoint scanned (normalizePath : jsstring -> jsstring)
    (readFileSync : jsstring -> option jsstring) (max_arguments : N)
    (lines : list jsstring) : list jsstring :=
  match lines with
  | [] => []
  | line :: rest =>
      if usable normalizePath readFileSync max_arguments line
      then line :: scanned normalizePath readFileSync max_arguments rest
      else [line]
  end.

(** The text written to standard output. *)
Definition echoed (evs : list event) : jsstring :=
  flat_map (fun e => match e with StdoutWrite t => t | _ => [] end) evs.

(** A string without white space at either end. *)
Definition trimmed (s : jsstring) : Prop :=
  trimStart s = s /\ trimStart (rev s) = rev s.

(** The computation only adds events, all of which satisfy [Q]. *)
Definition adds {A : Type} (Q : event -> bool) (m : M A) : Prop :=
  forall w, exists evs,
    trace (snd (m w)) = trace w ++ evs /\ forallb Q evs = true.

Definition is_api_call (e : event) : bool :=
  match e with
  | ApiCall _ => true
  | _ => false
  end.

(** The event shows text on standard output: a [console.log], of which the
    estimate of a dry run and the statistics line are two, or a
    [process.stdout.write]. *)
Definition displays (e : event) : bool :=
  match e with
  | ConsoleLog _ | StdoutWrite _ | Estimate _ | Stats _ _ _ => true
  | _ => false
  end.

(** The statistics line. *)
Definition is_stats (e : event) : bool :=
  match e with
  | Stats _ _ _ => true
  | _ => false
  end.

(** The number of backend calls among events. *)
Definition api_calls (evs : list event) : nat :=
  List.length (filter is_api_call evs).

(** The computation only adds events, at most [n] of them backend calls. *)
Definition calls_at_most {A : Type} (n : nat) (m : M A) : Prop :=
  forall w, exists evs,
    trace (snd (m w)) = trace w ++ evs /\ api_calls evs <= n.

(** The log of [w'] is the log of [w], or the log of [w], which is missing
    or holds an array, with one entry added at its end. *)
Definition log_step (w w' : world) : Prop :=
  log w' = log w \/
  exists items j,
    log_items (log w) = Some items /\
    log w' = Holds (JArr (items ++ [j])).

(** The states of the [data] handler agree on what decides the result. *)
Definition same_result (a b : stream_state) : Prop :=
  response a = response b /\ first a = first b /\ resolved a = resolved b.

End Cover.

(** ** Further samples *)

Module Sample2.

(** A directory where [outer.txt] holds an import line of its own. *)
Definition nested (path : jsstring) : option jsstring :=
  if str_eqb path (js "outer.txt")
  then Some (js "#import b.txt" ++ [LF] ++ js "tail")
  else Sample.files path.

(** A completion with one choice and a usage total. *)
Definition answer : completion :=
  {| usage := Some 42%Z; choices := [js " Hi there. "] |}.

(** A stream that stops after its first fragment. *)
Definition broken_stream : event_stream :=
  {| stream_usage := None;
     chunks := [Sample.sse (Sample.delta_payload (js "Hel"))];
     failure := None |}.

(** A stream whose connection is reset after its first fragment. *)
Definition reset_stream : event_stream :=
  {| stream_usage := None;
     chunks := [Sample.sse (Sample.delta_payload (js "Hel"))];
     failure := Some (ApiError (js "read ECONNRESET") false) |}.

(** A directory where [big.txt] can be read and has more lines than a call
    takes arguments: 130000 newlines, that is 130001 empty lines. *)
Definition oversized (path : jsstring) : option jsstring :=
  if str_eqb path (js "big.txt")
  then Some (repeat LF (N.to_nat 130000))
  else Sample.files path.

Definition stats_options : Options :=
  {| stream := false; chat := false; dryrun := false; stats := true;
     save := false; model := None; diff := None; prompt := None |}.

Definition chat_options : Options :=
  {| stream := false; chat := true; dryrun := false; stats := false;
     save := false; model := None; diff := None; prompt := None |}.

Definition plain_options : Options :=
  {| stream := false; chat := false; dryrun := false; stats := false;
     save := false; model := None; diff := None; prompt := None |}.

Definition prompt_options (file : jsstring) : Options :=
  {| stream := true; chat := false; dryrun := false; stats := false;
     save := false; model := None; diff := None; prompt := Some file |}.

(** A runtime whose standard output is no terminal. *)
Definition piped (batch : js_error + completion) : Runtime :=
  {| LOG_FILE := js "gish.log";
     DEFAULT_MODEL := js "gpt-3.5-turbo";
     DIFF_COMMAND := js "vimdiff";
     isatty := false;
     normalizePath := ImportFiles.normalizePath_spec Sample.home;
     readFileSync := Sample.files;
     max_arguments := Sample.node_limit;
     engine_message := Sample.error_text;
     JSON_parse := Sample.parse;
     countTokens := fun s => Z.of_nat (List.length s);
     cost_text := fun _ => js "$0.00002";
     createChatCompletion := fun _ => batch;
     createChatCompletionStream := fun _ => Sample.no_stream;
     time_start := 1000;
     time_end := 3500;
     timestamp := js "1/1/2024, 12:00:00 PM";
     saveFiles := fun _ _ _ => None |}.

Definition with_log (f : log_file) : world := {| log := f; trace := [] |}.

(** An environment with no variable and a key file that ends in a newline. *)
Definition key_in_file : Startup.Env :=
  {| Startup.OPENAI_API_KEY := None;
     Startup.homedir := js "/home/user";
     Startup.existsSync := fun path => str_eqb path (js "/home/user/.openai");
     Startup.readFile := fun path =>
       if str_eqb path (js "/home/user/.openai")
       then Some (js "sk-123" ++ [LF]) else None |}.

End Sample2.

(** * Properties *)

Import ImportFiles Props.

(** ** Strings and patterns *)

Section StringFacts.

Lemma char_eqb_eq (a b : jschar) : char_eqb a b = true <-> a = b.
Proof. apply N.eqb_eq. Qed.

Lemma str_eqb_eq (a b : jsstring) : str_eqb a b = true <-> a = b.
Proof.
  revert b; induction a as [|x a IH]; intros [|y b]; simpl;
    try (split; [discriminate | discriminate || congruence]); try tauto.
  rewrite andb_true_iff, char_eqb_eq, IH. split.
  - intros [-> ->]; reflexivity.
  - intros E; injection E; auto.
Qed.

Lemma str_eqb_refl (a : jsstring) : str_eqb a a = true.
Proof. apply str_eqb_eq; reflexivity. Qed.

Lemma split_nl_not_nil (s : jsstring) : split_nl s <> [].
Proof.
  destruct s as [|c s]; simpl; [discriminate|].
  destruct (char_eqb c LF); [discriminate|].
  destruct (split_nl s); discriminate.
Qed.

Lemma join_cons (sep l : jsstring) (ls : list jsstring) :
  ls <> [] -> join sep (l :: ls) = l ++ sep ++ join sep ls.
Proof. destruct ls; [congruence | reflexivity]. Qed.

(** Splitting at newlines and joining with newlines gives the text back. *)
Lemma join_split_nl (s : jsstring) : join_nl (split_nl s) = s.
Proof.
  unfold join_nl. induction s as [|c s IH]; [reflexivity|].
  simpl split_nl. destruct (char_eqb c LF) eqn:E.
  - apply char_eqb_eq in E; subst c.
    rewrite join_cons by apply split_nl_not_nil. rewrite IH; reflexivity.
  - pose proof (split_nl_not_nil s) as NE.
    destruct (split_nl s) as [|l ls]; [congruence|].
    destruct ls as [|l' ls].
    + simpl in *. congruence.
    + rewrite join_cons by discriminate.
      rewrite join_cons in IH by discriminate.
      rewrite <- IH. reflexivity.
Qed.

Lemma trimStart_app_stop (a b : jsstring) (c : jschar) :
  is_space c = false -> trimStart (a ++ c :: b) = trimStart a ++ c :: b.
Proof.
  intros Hc. induction a as [|x a IH]; simpl.
  - rewrite Hc; reflexivity.
  - destruct (is_space x); [exact IH | reflexivity].
Qed.


Lemma is_prefix_app (p s : jsstring) : is_prefix p (p ++ s) = true.
Proof.
  induction p as [|x p IH]; simpl; [reflexivity|].
  rewrite IH, andb_true_r. apply char_eqb_eq; reflexivity.
Qed.

Lemma contains_prefix (t s : jsstring) :
  is_prefix s t = true -> contains t s = true.
Proof. intros H. destruct t; simpl; rewrite H; reflexivity. Qed.

Lemma contains_app (a s b : jsstring) : contains (a ++ s ++ b) s = true.
Proof.
  induction a as [|x a IH].
  - simpl app. apply contains_prefix. apply is_prefix_app.
  - simpl. rewrite IH. apply orb_true_r.
Qed.

End StringFacts.

Section PatternFacts.

Lemma nullable_lang (r : regex) : nullable r = true <-> lang r [].
Proof.
  split.
  - induction r; simpl; intros H; try discriminate.
    + constructor.
    + apply orb_true_iff in H as [H|H]; [apply L_AltL | apply L_AltR]; auto.
    + apply andb_true_iff in H as [H1 H2].
      change (@nil jschar) with (@nil jschar ++ []). constructor; auto.
    + constructor.
  - intros H. remember [] as s eqn:Es.
    induction H; simpl; try discriminate; try reflexivity.
    + rewrite IHlang by assumption. reflexivity.
    + rewrite IHlang by assumption. apply orb_true_r.
    + apply app_eq_nil in Es as [-> ->].
      rewrite IHlang1, IHlang2 by reflexivity. reflexivity.
Qed.

Lemma deriv_lang (r : regex) (c : jschar) (s : jsstring) :
  lang (deriv c r) s <-> lang r (c :: s).
Proof.
  split.
  - revert s. induction r; simpl; intros s H.
    + inversion H.
    + inversion H.
    + destruct (b c) eqn:E; inversion H; subst. constructor; assumption.
    + inversion H; subst; [apply L_AltL | apply L_AltR]; auto.
    + destruct (nullable r1) eqn:N.
      * inversion H; subst.
        -- match goal with X : lang (Cat _ _) _ |- _ => inversion X; subst end.
           change (c :: s0 ++ t) with ((c :: s0) ++ t). constructor; auto.
        -- change (c :: s) with ([] ++ c :: s). constructor; auto.
           apply nullable_lang; assumption.
      * inversion H; subst.
        change (c :: s0 ++ t) with ((c :: s0) ++ t). constructor; auto.
    + inversion H; subst.
      change (c :: s0 ++ t) with ((c :: s0) ++ t). constructor; auto.
  - intros H. remember (c :: s) as t eqn:Et. revert c s Et.
    induction H; intros c0 s0 Et; simpl; try discriminate.
    + injection Et as -> <-. rewrite H. constructor.
    + apply L_AltL; auto.
    + apply L_AltR; auto.
    + destruct s as [|x s].
      * simpl in Et. subst t.
        apply nullable_lang in H. rewrite H. apply L_AltR; auto.
      * simpl in Et. injection Et as -> <-.
        destruct (nullable a); [apply L_AltL|]; constructor; auto.
    + destruct s as [|x s].
      * simpl in Et. apply IHlang2; assumption.
      * simpl in Et. injection Et as -> <-. constructor; auto.
Qed.

Lemma match_all_lang (s : jsstring) (r : regex) :
  match_all r s = true <-> lang r s.
Proof.
  revert r. induction s as [|c s IH]; intros r; simpl.
  - apply nullable_lang.
  - rewrite IH. apply deriv_lang.
Qed.

(** [match_start] finds a match exactly when a prefix is in the language. *)
Lemma match_start_lang (s : jsstring) (r : regex) :
  match_start r s = true <-> exists p q, s = p ++ q /\ lang r p.
Proof.
  revert r. induction s as [|c s IH]; intros r; simpl.
  - rewrite orb_false_r, nullable_lang. split.
    + intros H. exists [], []. auto.
    + intros (p & q & E & H). symmetry in E.
      apply app_eq_nil in E as [-> _]. assumption.
  - rewrite orb_true_iff, nullable_lang, IH. split.
    + intros [H | (p & q & -> & H)].
      * exists [], (c :: s). auto.
      * exists (c :: p), q. split; [reflexivity|]. apply deriv_lang; assumption.
    + intros (p & q & E & H). destruct p as [|x p].
      * left; assumption.
      * simpl in E. injection E as <- ->. right. exists p, q.
        split; [reflexivity|]. apply deriv_lang; assumption.
Qed.

Lemma lang_star_cls (f : jschar -> bool) (s : jsstring) :
  lang (Star (Cls f)) s <-> forallb f s = true.
Proof.
  split.
  - intros H. remember (Star (Cls f)) as r eqn:Er.
    induction H; try discriminate; [reflexivity|].
    injection Er as ->. inversion H; subst. simpl.
    rewrite IHlang2 by reflexivity.
    match goal with X : f _ = true |- _ => rewrite X end. reflexivity.
  - induction s as [|c s IH]; simpl; intros H; [constructor|].
    apply andb_true_iff in H as [Hc Hs].
    change (c :: s) with ([c] ++ s). constructor; [constructor|]; auto.
Qed.

Lemma match_all_spaces (s : jsstring) :
  match_all (Star (Cls is_space)) s = forallb is_space s.
Proof.
  apply eq_true_iff_eq. rewrite match_all_lang. apply lang_star_cls.
Qed.

Lemma lang_lit (l s : jsstring) : lang (Lit l) s -> s = l.
Proof.
  revert s. induction l as [|c l IH]; simpl; intros s H.
  - inversion H; reflexivity.
  - inversion H; subst.
    match goal with X : lang (Cls _) _ |- _ => inversion X; subst end.
    match goal with X : char_eqb _ _ = true |- _ =>
      apply char_eqb_eq in X; subst end.
    simpl. f_equal. apply IH; assumption.
Qed.

Lemma lang_plus_cls (f : jschar -> bool) (s : jsstring) :
  lang (Plus (Cls f)) s ->
  exists c s', s = c :: s' /\ f c = true /\ forallb f s' = true.
Proof.
  intros H. inversion H; subst.
  match goal with X : lang (Cls _) _ |- _ => inversion X; subst end.
  eexists _, _. split; [reflexivity|]. split; [assumption|].
  apply lang_star_cls; assumption.
Qed.

(** The shape of a line a directive pattern matches: white space, the
    keyword, white space, a path character. *)
Lemma directive_shape (keyword : string) (line : jsstring) :
  match_start (directiveRe keyword) line = true ->
  exists ws sp sps c rest,
    line = ws ++ js keyword ++ (sp :: sps) ++ c :: rest /\
    forallb is_space ws = true /\ is_space sp = true /\
    forallb is_space sps = true /\ is_path_char c = true.
Proof.
  intros H. apply match_start_lang in H as (p & q & -> & H).
  unfold directiveRe in H. inversion H as [| | | |? ? ws t1 Hws H1| |]; subst.
  inversion H1 as [| | | |? ? kw t2 Hkw H2| |]; subst.
  inversion H2 as [| | | |? ? sp1 pc Hsp Hpc| |]; subst.
  apply lang_star_cls in Hws. apply lang_lit in Hkw; subst kw.
  apply lang_plus_cls in Hsp as (sp & sps & -> & Hsp & Hsps).
  apply lang_plus_cls in Hpc as (c & pcs & -> & Hc & _).
  exists ws, sp, sps, c, (pcs ++ q). repeat split; auto.
  rewrite <- !app_assoc. simpl. rewrite <- ?app_assoc. reflexivity.
Qed.

End PatternFacts.

(** ** importFiles *)

Section SplitFacts.

Lemma split_ws_go_length (s : jsstring) (b : bool) (acc : jsstring) :
  1 <= List.length (split_ws_go b acc s).
Proof.
  revert b acc. induction s as [|c s IH]; intros b acc; simpl; [lia|].
  destruct (is_space c); [destruct b; simpl|]; auto with arith.
Qed.

Lemma split_ws_go_word (u : jsstring) (sp : jschar) (t : jsstring)
    (b : bool) (acc : jsstring) :
  u <> [] -> forallb (fun c => negb (is_space c)) u = true ->
  is_space sp = true ->
  2 <= List.length (split_ws_go b acc (u ++ sp :: t)).
Proof.
  revert b acc. induction u as [|x u IH]; intros b acc NE Hu Hsp;
    [congruence|].
  simpl in Hu. apply andb_true_iff in Hu as [Hx Hu].
  apply negb_true_iff in Hx. simpl. rewrite Hx.
  destruct u as [|y u].
  - simpl. rewrite Hsp. simpl.
    pose proof (split_ws_go_length t true []). lia.
  - apply IH; [discriminate | assumption | assumption].
Qed.

Lemma split_ws_go_spaces (ws t : jsstring) :
  forallb is_space ws = true ->
  (forall b acc, 2 <= List.length (split_ws_go b acc t)) ->
  forall b acc, 2 <= List.length (split_ws_go b acc (ws ++ t)).
Proof.
  intros Hws Ht. induction ws as [|x ws IH]; intros b acc; [apply Ht|].
  simpl in Hws. apply andb_true_iff in Hws as [Hx Hws].
  simpl. rewrite Hx. specialize (IH Hws true []).
  destruct b; simpl; lia.
Qed.

Lemma keyword_split (keyword : string) (line : jsstring) :
  js keyword <> [] ->
  forallb (fun c => negb (is_space c)) (js keyword) = true ->
  match_start (directiveRe keyword) line = true ->
  2 <= List.length (split_ws line).
Proof.
  intros NE Hk H.
  apply directive_shape in H
    as (ws & sp & sps & c & rest & -> & Hws & Hsp & _ & _).
  unfold split_ws. apply split_ws_go_spaces; [assumption|].
  intros b acc.
  apply (@split_ws_go_word (js keyword) sp (sps ++ c :: rest)); assumption.
Qed.

(** When a directive pattern has matched, [line.split(/\s+/)] has a second
    entry: [fname] is a string, never [undefined]. *)
Lemma split_ws_second (line : jsstring) :
  is_directive line = true -> 2 <= List.length (split_ws line).
Proof.
  unfold is_directive. intros H. apply orb_true_iff in H as [H|H].
  - apply (@keyword_split "#import"); [discriminate | reflexivity | exact H].
  - apply (@keyword_split "#diff"); [discriminate | reflexivity | exact H].
Qed.

Lemma split_ws_go_word_eq (u : jsstring) (sp : jschar) (t : jsstring)
    (b : bool) (acc : jsstring) :
  forallb (fun c => negb (is_space c)) u = true -> is_space sp = true ->
  u <> [] \/ b = false ->
  split_ws_go b acc (u ++ sp :: t) = (rev acc ++ u) :: split_ws_go true [] t.
Proof.
  revert b acc. induction u as [|x u IH]; intros b acc Hu Hsp Hb.
  - destruct Hb as [Hb | ->]; [congruence|].
    simpl. rewrite Hsp, app_nil_r. reflexivity.
  - simpl in Hu. apply andb_true_iff in Hu as [Hx Hu].
    apply negb_true_iff in Hx. simpl. rewrite Hx.
    rewrite IH by auto. simpl. rewrite <- app_assoc. reflexivity.
Qed.

Lemma split_ws_go_spaces_eq (ws t : jsstring) :
  forallb is_space ws = true ->
  split_ws_go true [] (ws ++ t) = split_ws_go true [] t.
Proof.
  induction ws as [|x ws IH]; intros H; [reflexivity|].
  simpl in H. apply andb_true_iff in H as [Hx H].
  simpl. rewrite Hx. auto.
Qed.

(** The defect behind C1: on a directive line that begins with white space,
    [line.split(/\s+/)] begins with an empty string, and entry 1, which the
    source takes as the file name, is the keyword itself. *)
Lemma leading_space_reads_keyword (keyword : string) (line : jsstring) :
  js keyword <> [] ->
  forallb (fun c => negb (is_space c)) (js keyword) = true ->
  match_start (directiveRe keyword) line = true ->
  trimStart line <> line ->
  fname_of line = js keyword.
Proof.
  intros NE Hk H Ht.
  apply directive_shape in H
    as (ws & sp & sps & c & rest & -> & Hws & Hsp & Hsps & Hc).
  destruct ws as [|w ws].
  - exfalso. apply Ht. destruct (js keyword) as [|k ks]; [congruence|].
    simpl in *. apply andb_true_iff in Hk as [Hk _].
    apply negb_true_iff in Hk. rewrite Hk. reflexivity.
  - simpl in Hws. apply andb_true_iff in Hws as [Hw Hws].
    unfold fname_of, split_ws. simpl. rewrite Hw.
    rewrite split_ws_go_spaces_eq by assumption.
    change ((sp :: sps) ++ c :: rest) with (sp :: sps ++ c :: rest).
    rewrite split_ws_go_word_eq by auto. reflexivity.
Qed.

(** A directive at the very start of its line names the path the source
    reads. *)
Lemma fname_at_line_start (line : jsstring) :
  trimStart line = line -> fname_of line = directive_path line.
Proof. intros E. unfold directive_path. rewrite E. reflexivity. Qed.

End SplitFacts.

Section ExpanderFacts.

Variable normalizePath : jsstring -> jsstring.
Variable readFileSync : jsstring -> option jsstring.
Variable max_arguments : N.

Local Abbreviation loop :=
  (importLoop normalizePath readFileSync max_arguments).
Local Abbreviation prefix :=
  (loop_prefix normalizePath readFileSync max_arguments).
Local Abbreviation expand :=
  (importFiles normalizePath readFileSync max_arguments).
Local Abbreviation try_lines :=
  (read_lines readFileSync max_arguments) (only parsing).

(** A file that cannot be read gives no lines. *)
Lemma read_lines_unreadable (filePath : jsstring) :
  readFileSync filePath = None -> try_lines filePath = None.
Proof. intros H. unfold read_lines. rewrite H. reflexivity. Qed.

(** The lines of a file are given when it can be read and they are no more
    than a call takes arguments, and only then. *)
Lemma read_lines_some (filePath : jsstring) (fileLines : list jsstring) :
  try_lines filePath = Some fileLines <->
  exists fileContents,
    readFileSync filePath = Some fileContents /\
    fileLines = split_nl fileContents /\
    (N.of_nat (List.length fileLines) <= max_arguments)%N.
Proof.
  unfold read_lines. destruct (readFileSync filePath) as [c|].
  - cbv zeta.
    destruct (N.leb_spec (N.of_nat (List.length (split_nl c))) max_arguments)
      as [L|L]; split.
    + intros E. injection E as <-. exists c. auto.
    + intros (c' & E & -> & _). injection E as <-. reflexivity.
    + discriminate.
    + intros (c' & E & -> & L'). injection E as <-. lia.
  - split; [discriminate | intros (c & E & _); discriminate].
Qed.

(** The loop over [pre ++ rest] is the loop over [rest] from the arrays
    [pre] leaves, and the loop over [pre] alone when a read fails in it. *)
Lemma importLoop_app (pre rest m d : list jsstring) :
  loop (pre ++ rest) m d =
  match prefix pre m d with
  | Some (m', d') => loop rest m' d'
  | None => loop pre m d
  end.
Proof.
  revert m d. induction pre as [|line pre IH]; intros m d; [reflexivity|].
  simpl. unfold is_directive.
  destruct (match_start importRe line || match_start diffRe line).
  - destruct (try_lines (normalizePath (fname_of line))); [apply IH|].
    reflexivity.
  - apply IH.
Qed.

Lemma importLoop_plain (lines m d : list jsstring) :
  forallb (fun line => negb (is_directive line)) lines = true ->
  loop lines m d = (true, join_nl (m ++ lines), d).
Proof.
  revert m. induction lines as [|line lines IH]; intros m H; simpl.
  - rewrite app_nil_r. reflexivity.
  - simpl in H. apply andb_true_iff in H as [Hl H].
    apply negb_true_iff in Hl. unfold is_directive in Hl. rewrite Hl.
    rewrite IH by assumption. rewrite <- app_assoc. reflexivity.
Qed.

(** The first directive whose file cannot be read ends the expansion: the
    result names the path that was read and does not depend on the lines
    after it. *)
Lemma importFiles_fail_fast (content : jsstring)
    (pre : list jsstring) (line : jsstring) (post m d : list jsstring) :
  split_nl content = pre ++ line :: post ->
  prefix pre [] [] = Some (m, d) ->
  is_directive line = true ->
  readFileSync (normalizePath (fname_of line)) = None ->
  expand content =
    (false, not_found (normalizePath (fname_of line)),
     if match_start diffRe line then d ++ [normalizePath (fname_of line)]
     else d).
Proof.
  intros Hs Hp Hd Hr. unfold importFiles.
  rewrite Hs, importLoop_app, Hp. simpl.
  unfold is_directive in Hd.
  rewrite Hd, (read_lines_unreadable Hr). reflexivity.
Qed.

(** A directive whose file is read, and has no more lines than a call takes
    arguments, is replaced by the lines of the file. *)
Lemma importFiles_splice (content : jsstring)
    (pre : list jsstring) (line : jsstring) (post m d : list jsstring)
    (fileContents : jsstring) :
  split_nl content = pre ++ line :: post ->
  prefix pre [] [] = Some (m, d) ->
  is_directive line = true ->
  readFileSync (normalizePath (fname_of line)) = Some fileContents ->
  (N.of_nat (List.length (split_nl fileContents)) <= max_arguments)%N ->
  expand content =
    loop post (m ++ split_nl fileContents)
      (if match_start diffRe line then d ++ [normalizePath (fname_of line)]
       else d).
Proof.
  intros Hs Hp Hd Hr Hn. unfold importFiles.
  rewrite Hs, importLoop_app, Hp. simpl.
  unfold is_directive in Hd. rewrite Hd.
  assert (E : read_lines readFileSync max_arguments
                (normalizePath (fname_of line))
              = Some (split_nl fileContents)).
  { apply read_lines_some. exists fileContents. auto. }
  rewrite E. reflexivity.
Qed.

(** A directive whose file is read, but has more lines than a call takes
    arguments, ends the expansion like a file that cannot be read: the
    [RangeError] of [push] reaches the same [catch]. *)
Lemma importFiles_oversized (content : jsstring)
    (pre : list jsstring) (line : jsstring) (post m d : list jsstring)
    (fileContents : jsstring) :
  split_nl content = pre ++ line :: post ->
  prefix pre [] [] = Some (m, d) ->
  is_directive line = true ->
  readFileSync (normalizePath (fname_of line)) = Some fileContents ->
  (max_arguments < N.of_nat (List.length (split_nl fileContents)))%N ->
  expand content =
    (false, not_found (normalizePath (fname_of line)),
     if match_start diffRe line then d ++ [normalizePath (fname_of line)]
     else d).
Proof.
  intros Hs Hp Hd Hr Hn. unfold importFiles.
  rewrite Hs, importLoop_app, Hp. simpl.
  unfold is_directive in Hd. rewrite Hd.
  unfold read_lines. rewrite Hr. cbv zeta.
  apply N.leb_gt in Hn. rewrite Hn. reflexivity.
Qed.

Lemma loop_prefix_plain (lines m d : list jsstring) :
  forallb (fun line => negb (is_directive line)) lines = true ->
  prefix lines m d = Some (m ++ lines, d).
Proof.
  revert m. induction lines as [|line lines IH]; intros m H; simpl.
  - rewrite app_nil_r. reflexivity.
  - simpl in H. apply andb_true_iff in H as [Hl H].
    apply negb_true_iff in Hl. rewrite Hl, IH by assumption.
    rewrite <- app_assoc. reflexivity.
Qed.

(** A directive at the start of its line, between lines that are no
    directives, whose file can be read: the line is replaced by the lines of
    the file, and a [#diff] path is the one diff target. *)
Lemma directive_line_is_replaced (content : jsstring)
    (pre : list jsstring) (line : jsstring) (post : list jsstring)
    (fileContents : jsstring) :
  split_nl content = pre ++ line :: post ->
  forallb (fun l => negb (is_directive l)) pre = true ->
  forallb (fun l => negb (is_directive l)) post = true ->
  is_directive line = true ->
  trimStart line = line ->
  readFileSync (normalizePath (directive_path line)) = Some fileContents ->
  (N.of_nat (List.length (split_nl fileContents)) <= max_arguments)%N ->
  expand content =
    (true, join_nl (pre ++ split_nl fileContents ++ post),
     if match_start diffRe line then [normalizePath (directive_path line)]
     else []).
Proof.
  intros Hs Hpre Hpost Hd Ht Hr Hn.
  rewrite <- (fname_at_line_start Ht) in *.
  rewrite (@importFiles_splice content pre line post pre [] fileContents);
    auto.
  - rewrite importLoop_plain by assumption. rewrite <- app_assoc.
    reflexivity.
  - apply (loop_prefix_plain pre [] []). assumption.
Qed.

(** For a directive at the start of its line whose file cannot be read, the
    failure text contains the normalized path the directive names, and the
    result is the same whatever lines follow the directive. *)
Lemma failure_at_line_start (content content' : jsstring)
    (pre : list jsstring) (line : jsstring) (post post' m d : list jsstring) :
  split_nl content = pre ++ line :: post ->
  split_nl content' = pre ++ line :: post' ->
  prefix pre [] [] = Some (m, d) ->
  is_directive line = true ->
  trimStart line = line ->
  readFileSync (normalizePath (directive_path line)) = None ->
  fst (fst (expand content)) = false /\
  contains (snd (fst (expand content))) (normalizePath (directive_path line))
  = true /\
  expand content' = expand content.
Proof.
  intros Hs Hs' Hp Hd Ht Hr.
  rewrite <- (fname_at_line_start Ht) in *.
  rewrite (@importFiles_fail_fast content pre line post m d Hs Hp Hd Hr).
  rewrite (@importFiles_fail_fast content' pre line post' m d Hs' Hp Hd Hr).
  cbn [fst snd]. repeat split. unfold not_found. apply contains_app.
Qed.

(** C9. A request text without directive lines is returned unchanged, with
    success and no diff targets; expanding the result again returns the same
    text, so that expansion of directive-free text is idempotent. *)
Theorem importFiles_without_directives (content : jsstring) :
  no_directive content = true ->
  expand content = (true, content, []) /\
  expand (snd (fst (expand content))) = expand content.
Proof.
  intros H.
  assert (E : expand content = (true, content, [])).
  { unfold importFiles. rewrite importLoop_plain by exact H.
    simpl. rewrite join_split_nl. reflexivity. }
  split; [exact E|]. rewrite E. simpl. exact E.
Qed.

(** C10. When the expansion stops at a [#diff] line whose file cannot be
    read, the path of that file, the one the failure text names, is the
    last diff target of the failure result: it is pushed before the read.
    For a directive at the start of its line that path is the normalized
    path the directive names. *)
Theorem failed_diff_is_last_target (content : jsstring)
    (pre : list jsstring) (line : jsstring) (post m d : list jsstring) :
  split_nl content = pre ++ line :: post ->
  prefix pre [] [] = Some (m, d) ->
  match_start diffRe line = true ->
  readFileSync (normalizePath (fname_of line)) = None ->
  let filePath := normalizePath (fname_of line) in
  expand content = (false, not_found filePath, d ++ [filePath]) /\
  last (snd (expand content)) [] = filePath /\
  (trimStart line = line -> filePath = normalizePath (directive_path line)).
Proof.
  intros Hs Hp Hd Hr filePath.
  assert (E : expand content = (false, not_found filePath, d ++ [filePath])).
  { rewrite (importFiles_fail_fast content pre line post Hs Hp); auto.
    - rewrite Hd. reflexivity.
    - unfold is_directive. rewrite Hd. apply orb_true_r. }
  split; [exact E|]. split.
  - rewrite E. simpl. apply last_last.
  - intros Ht. unfold filePath. rewrite fname_at_line_start by exact Ht.
    reflexivity.
Qed.

End ExpanderFacts.

Lemma importFiles_without_directives_witness :
  importFiles (normalizePath_spec Sample.home) Sample.files
    Sample.node_limit
    (js "Hello #import b.txt world" ++ [LF] ++ js "bye")
  = (true, js "Hello #import b.txt world" ++ [LF] ++ js "bye", []) /\
  importFiles (normalizePath_spec Sample.home) Sample.files
    Sample.node_limit
    (snd (fst (importFiles (normalizePath_spec Sample.home) Sample.files
                 Sample.node_limit
                 (js "Hello #import b.txt world" ++ [LF] ++ js "bye"))))
  = importFiles (normalizePath_spec Sample.home) Sample.files
    Sample.node_limit
      (js "Hello #import b.txt world" ++ [LF] ++ js "bye").
Proof.
  apply (@importFiles_without_directives (normalizePath_spec Sample.home)
           Sample.files Sample.node_limit
           (js "Hello #import b.txt world" ++ [LF] ++ js "bye")).
  vm_compute. reflexivity.
Defined.

Lemma failed_diff_is_last_target_witness :
  let content :=
    js "#diff b.txt" ++ [LF] ++ js "#diff ~/nope.txt" ++ [LF] ++ js "rest" in
  let expand := importFiles (normalizePath_spec Sample.home) Sample.files
      Sample.node_limit in
  expand content
  = (false, not_found (js "/home/user/nope.txt"),
     [js "b.txt"; js "/home/user/nope.txt"]) /\
  last (snd (expand content)) [] = js "/home/user/nope.txt" /\
  (trimStart (js "#diff ~/nope.txt") = js "#diff ~/nope.txt" ->
   js "/home/user/nope.txt"
   = normalizePath_spec Sample.home (directive_path (js "#diff ~/nope.txt"))).
Proof.
  apply (@failed_diff_is_last_target (normalizePath_spec Sample.home)
           Sample.files Sample.node_limit
           (js "#diff b.txt" ++ [LF] ++ js "#diff ~/nope.txt" ++ [LF]
            ++ js "rest")
           [js "#diff b.txt"] (js "#diff ~/nope.txt") [js "rest"]
           [js "there"] [js "b.txt"]);
    vm_compute; reflexivity.
Defined.

(** C1. A readable file named by an [#import] line that begins with a
    blank is not spliced in: the pattern matches the line and the directive
    names [a.txt], which can be read, but the source takes the keyword as
    the file name and reports that the file [#import] was not found. *)
Theorem indented_import_is_not_spliced :
  let line := js " #import a.txt" in
  match_start importRe line = true /\
  directive_path line = js "a.txt" /\
  Sample.files (normalizePath_spec Sample.home (js "a.txt"))
  = Some (js "hello" ++ [LF] ++ js "world") /\
  fname_of line = js "#import" /\
  importFiles (normalizePath_spec Sample.home) Sample.files
      Sample.node_limit line
  = (false, js "#import file #import was not found", []).
Proof. vm_compute. repeat split; reflexivity. Qed.

(** C5. A directive line that begins with a blank and names a file that
    does not exist: the failure text names the keyword, not the path of the
    missing file; and in a directory that holds a file called [#import] the
    expansion even succeeds. *)
Theorem indented_failure_names_the_keyword :
  let content :=
    js "intro" ++ [LF] ++ js " #import missing.txt" ++ [LF] ++ js "outro" in
  let line := js " #import missing.txt" in
  In line (split_nl content) /\
  match_start importRe line = true /\
  directive_path line = js "missing.txt" /\
  Sample.files (normalizePath_spec Sample.home (js "missing.txt")) = None /\
  importFiles (normalizePath_spec Sample.home) Sample.files
      Sample.node_limit content
  = (false, js "#import file #import was not found", []) /\
  contains (js "#import file #import was not found") (js "missing.txt")
  = false /\
  Sample.keyword_file (normalizePath_spec Sample.home (js "missing.txt"))
  = None /\
  importFiles (normalizePath_spec Sample.home) Sample.keyword_file
    Sample.node_limit content
  = (true, js "intro" ++ [LF] ++ js "surprise" ++ [LF] ++ js "outro", []).
Proof.
  vm_compute. repeat split; try reflexivity. right; left; reflexivity.
Qed.

(** ** The conversation log *)

Section LogFacts.

Variable rt : Runtime.

Lemma appendToLog_spec (j : json) (w : world) (items : list json) :
  log_items (log w) = Some items ->
  appendToLog rt j w =
    (Ret tt,
     {| log := Holds (JArr (items ++ [j]));
        trace := (trace w ++ created (log w))
                 ++ [LogWrite (JArr (items ++ [j]))] |}).
Proof.
  destruct w as [f tr]. simpl. intros H.
  destruct f as [| |v]; simpl in H; try discriminate.
  - injection H as <-. reflexivity.
  - destruct v; try discriminate. injection H as <-.
    unfold appendToLog, bind, read_log, lift, write_log. simpl.
    rewrite app_nil_r. reflexivity.
Qed.

Lemma skipn_all_but_last (A : Type) (l : list A) (x : A) :
  skipn (List.length (l ++ [x]) - 1) (l ++ [x]) = [x].
Proof.
  rewrite length_app. simpl.
  replace (List.length l + 1 - 1) with (List.length l + 0) by lia.
  rewrite skipn_app, Nat.add_0_r, skipn_all, Nat.sub_diag. reflexivity.
Qed.

(** The last entry of a log that is a non-empty array is the one read. *)
Lemma getPrviousRequests_last (w : world) (items : list json) (e : json) :
  log w = Holds (JArr (items ++ [e])) ->
  getPrviousRequests rt w = (get_field (Some e) (js "messages"), w).
Proof.
  destruct w as [f tr]. simpl. intros ->.
  unfold getPrviousRequests, bind, read_log, lift. simpl.
  rewrite skipn_all_but_last. simpl. reflexivity.
Qed.

(** An empty log: the empty array. *)
Lemma getPrviousRequests_empty (w : world) :
  log w = Holds (JArr []) ->
  getPrviousRequests rt w = (Ret (Some (JArr [])), w).
Proof. destruct w as [f tr]. simpl. intros ->. reflexivity. Qed.

Lemma jsonLog_messages (e : LogEntry) :
  get_field (Some (jsonLog e)) (js "messages") = Ret (Some (JArr (messages e))).
Proof. reflexivity. Qed.

Lemma append_all_spec (entries : list LogEntry) (w : world)
    (items : list json) :
  log_items (log w) = Some items ->
  fst (append_all rt entries w) = Ret tt /\
  log_items (log (snd (append_all rt entries w)))
  = Some (items ++ map jsonLog entries).
Proof.
  revert w items. induction entries as [|e entries IH]; intros w items H.
  - simpl. rewrite app_nil_r. auto.
  - simpl. unfold bind. rewrite (appendToLog_spec _ _ H).
    match goal with |- context [append_all rt entries ?w'] =>
      destruct (IH w' (items ++ [jsonLog e]) eq_refl) as [E1 E2] end.
    split; [exact E1|]. rewrite E2, <- app_assoc. reflexivity.
Qed.

(** C2. With no log file, [getPrviousRequests] does not return the empty
    sequence: [fs.readFileSync] throws, and nothing catches it. *)
Theorem previous_requests_of_missing_log (tr : list event) :
  getPrviousRequests rt {| log := Absent; trace := tr |}
  = (Throw (FsError (LOG_FILE rt)), {| log := Absent; trace := tr |}).
Proof. reflexivity. Qed.

(** With the chat option and no log file, [fetch] throws before the backend
    is called. *)
Lemma chat_without_log_throws (options : Options) (request : jsstring)
    (useSpinner : bool) (tr : list event) :
  chat options = true ->
  fetch rt options request useSpinner {| log := Absent; trace := tr |}
  = (Throw (FsError (LOG_FILE rt)), {| log := Absent; trace := tr |}).
Proof. intros H. unfold fetch, opening, bind. rewrite H. reflexivity. Qed.

(** The sibling path: [appendToLog] creates a missing log before it reads
    it. *)
Lemma appendToLog_creates_missing_log (j : json) (tr : list event) :
  appendToLog rt j {| log := Absent; trace := tr |}
  = (Ret tt,
     {| log := Holds (JArr [j]);
        trace := (tr ++ [LogWrite (JArr [])]) ++ [LogWrite (JArr [j])] |}).
Proof. reflexivity. Qed.

(** C6. Whatever the log held before (no file, or any sequence of entries),
    after entries are appended [getPrviousRequests] returns exactly the
    messages of the entry appended last; with no earlier entry this is the
    round trip of one append. *)
Theorem append_then_last_conversation (prior : option (list json))
    (earlier : list LogEntry) (entry : LogEntry) (tr : list event) :
  let w := {| log := log_of prior; trace := tr |} in
  fst (append_all rt (earlier ++ [entry]) w) = Ret tt /\
  fst (getPrviousRequests rt (snd (append_all rt (earlier ++ [entry]) w)))
  = Ret (Some (JArr (messages entry))).
Proof.
  intros w.
  assert (H : log_items (log w)
              = Some (match prior with Some items => items | None => [] end))
    by (destruct prior; reflexivity).
  destruct (append_all_spec (earlier ++ [entry]) w H) as [E1 E2].
  split; [exact E1|].
  rewrite map_app, app_assoc in E2. simpl in E2.
  destruct (log (snd (append_all rt (earlier ++ [entry]) w))) as [| |v] eqn:El;
    simpl in E2.
  - injection E2 as E2. symmetry in E2. apply app_eq_nil in E2 as [_ E2].
    discriminate.
  - discriminate.
  - destruct v; try discriminate. injection E2 as ->.
    rewrite (getPrviousRequests_last _ _ _ El). apply jsonLog_messages.
Qed.

End LogFacts.

(** ** The streaming path *)

Section StreamFacts.

Variable rt : Runtime.
Variable res_usage : option Z.

Local Abbreviation lines_from := (on_lines rt res_usage).

(** Lines before the end-of-stream signal are handled one after the
    other. *)
Lemma on_lines_app (pre post : list jsstring) (st : stream_state) :
  forallb (fun l => negb (is_done l)) pre = true ->
  lines_from (pre ++ post) st = lines_from post (lines_from pre st).
Proof.
  revert st. induction pre as [|l pre IH]; intros st H; [reflexivity|].
  simpl in H. apply andb_true_iff in H as [Hl H].
  apply negb_true_iff in Hl. unfold is_done in Hl. simpl. rewrite Hl.
  destruct (delta_content rt (replace_data_prefix l)) as [content| |];
    try (apply IH; assumption).
  destruct (truthy content); [|apply IH; assumption].
  destruct content as [[| | |text| |]|]; try (apply IH; assumption).
  destruct (first st && match_all (Star (Cls is_space)) text);
    apply IH; assumption.
Qed.

Lemma carries_not_done (ls fs : list jsstring) :
  Forall2 (carries rt) ls fs ->
  forallb (fun l => negb (is_done l)) ls = true.
Proof.
  induction 1 as [|l f ls fs [Hd _] _ IH]; [reflexivity|].
  simpl. rewrite Hd, IH. reflexivity.
Qed.

(** What the handler has built after lines that carry the fragments [fs]. *)
Lemma on_lines_fragments (ls fs : list jsstring) :
  Forall2 (carries rt) ls fs ->
  forall st,
    response (lines_from ls st) = response st ++ assemble (first st) fs /\
    resolved (lines_from ls st) = resolved st /\
    first (lines_from ls st) = first st && forallb is_nil fs.
Proof.
  induction 1 as [|l f ls fs [Hd Hc] _ IH]; intros st.
  - simpl. rewrite app_nil_r, andb_true_r. auto.
  - simpl. unfold is_done in Hd. rewrite Hd, Hc.
    destruct f as [|c f].
    + simpl. apply IH.
    + cbn [truthy]. rewrite match_all_spaces.
      destruct (first st && forallb is_space (c :: f)) eqn:E.
      * destruct (IH {| response := response st; first := false;
                        resolved := resolved st; written := written st |})
          as (E1 & E2 & E3).
        rewrite E1, E2, E3.
        cbn [response first resolved assemble is_nil forallb andb] in *.
        rewrite ?app_assoc, ?andb_false_r. auto.
      * destruct (IH {| response := response st ++ collapse_newlines (c :: f);
                        first := false; resolved := resolved st;
                        written := written st ++
                                   [StdoutWrite (collapse_newlines (c :: f))] |})
          as (E1 & E2 & E3).
        rewrite E1, E2, E3.
        cbn [response first resolved assemble is_nil forallb andb] in *.
        rewrite ?app_assoc, ?andb_false_r. auto.
Qed.

Lemma fold_on_data_no_lines (cs : list jsstring) (st : stream_state) :
  flat_map kept_lines cs = [] ->
  fold_left (on_data rt res_usage) cs st = st.
Proof.
  revert st. induction cs as [|c cs IH]; intros st H; [reflexivity|].
  simpl in H. apply app_eq_nil in H as [Hc H].
  simpl. unfold on_data at 2. fold (kept_lines c). rewrite Hc. simpl.
  apply IH; assumption.
Qed.

(** When the end-of-stream signal is the last line of the last chunk, the
    chunks are handled like one list of lines. *)
Lemma fold_on_data_lines (cs : list jsstring) :
  forall (pre : list jsstring) (l : jsstring) (st : stream_state),
    flat_map kept_lines cs = pre ++ [l] ->
    forallb (fun l => negb (is_done l)) pre = true ->
    fold_left (on_data rt res_usage) cs st = lines_from (pre ++ [l]) st.
Proof.
  induction cs as [|c cs IH]; intros pre l st H Hp.
  - simpl in H. destruct pre; discriminate.
  - simpl in H. simpl fold_left. unfold on_data at 2. fold (kept_lines c).
    destruct (flat_map kept_lines cs) as [|x xs] eqn:Ef.
    + rewrite app_nil_r in H. rewrite H.
      apply fold_on_data_no_lines; assumption.
    + destruct (@exists_last _ (x :: xs)) as (pre2 & l2 & E2);
        [discriminate|].
      rewrite E2, app_assoc in H. apply app_inj_tail in H as [Hpre ->].
      subst pre. rewrite forallb_app in Hp.
      apply andb_true_iff in Hp as [Hp1 Hp2].
      rewrite <- app_assoc, on_lines_app by assumption.
      apply IH; [exact E2 | exact Hp2].
Qed.

End StreamFacts.

Section StreamResult.

Variable rt : Runtime.

Lemma collapse_single_newlines (s : jsstring) :
  single_newlines s = true -> collapse_newlines s = s.
Proof.
  induction s as [|c s IH]; [reflexivity|].
  simpl. destruct s as [|d s].
  - destruct (char_eqb c LF); reflexivity.
  - intros H. apply andb_true_iff in H as [H1 H2].
    rewrite (IH H2). destruct (char_eqb c LF); [|reflexivity].
    simpl in H1. apply negb_true_iff in H1. rewrite H1. reflexivity.
Qed.

(** Without a blank opening fragment and without runs of newlines the
    assembled text is the plain concatenation. *)
Lemma assemble_plain (fs : list jsstring) (first : bool) :
  forallb single_newlines fs = true ->
  first = false \/ opens_with_text fs = true ->
  assemble first fs = List.concat fs.
Proof.
  revert first. induction fs as [|f fs IH]; intros first Hs Ho; [reflexivity|].
  simpl in Hs. apply andb_true_iff in Hs as [Hf Hs].
  destruct f as [|c f].
  - simpl. apply IH; assumption.
  - cbn [assemble List.concat].
    assert (E : first && forallb is_space (c :: f) = false).
    { destruct Ho as [-> | Ho]; [reflexivity|].
      cbn [opens_with_text] in Ho. apply negb_true_iff in Ho.
      rewrite Ho. apply andb_false_r. }
    rewrite E, (collapse_single_newlines _ Hf), (IH false) by auto.
    reflexivity.
Qed.

(** The value the promise is resolved with when the lines of the stream
    carry the fragments [fs] and end with the end-of-stream signal. *)
Lemma run_stream_done (res : event_stream) (ls fs : list jsstring)
    (done : jsstring) :
  flat_map kept_lines (chunks res) = ls ++ [done] ->
  Forall2 (carries rt) ls fs ->
  is_done done = true ->
  resolved (run_stream rt res)
  = Some {| text := assemble true fs;
            tokens := match stream_usage res with
                      | Some n => n
                      | None => 0%Z
                      end |}.
Proof.
  intros Hl Hc Hd. unfold run_stream.
  pose proof (carries_not_done Hc) as Hn.
  rewrite (fold_on_data_lines rt (stream_usage res) (chunks res) ls done
             stream_start Hl Hn).
  rewrite on_lines_app by exact Hn.
  destruct (on_lines_fragments (stream_usage res) Hc stream_start)
    as (E1 & E2 & _).
  simpl. unfold is_done in Hd. rewrite Hd. simpl.
  rewrite E2, E1. reflexivity.
Qed.

(** C4, amended. For a stream of text fragments that ends with the
    end-of-stream signal, the text of the result is the fragments put
    together in arrival order, each with its runs of newlines reduced to one
    newline, and without the first non-empty fragment when that is white
    space only.  It is the plain concatenation when no fragment has two
    newlines in a row and the first non-empty fragment has text. *)
Theorem streamed_text_is_assembled (queries messages : list json)
    (options : Options) (w : world) (res : event_stream)
    (ls fs : list jsstring) (done : jsstring) :
  with_prompt rt queries options = inr messages ->
  createChatCompletionStream rt (stream_request rt messages options) = inr res ->
  flat_map kept_lines (chunks res) = ls ++ [done] ->
  Forall2 (carries rt) ls fs ->
  is_done done = true ->
  fst (streamResponse rt queries options w)
  = Ret ({| text := assemble true fs;
            tokens := match stream_usage res with
                      | Some n => n
                      | None => 0%Z
                      end |}, messages) /\
  (forallb single_newlines fs = true -> opens_with_text fs = true ->
   assemble true fs = List.concat fs).
Proof.
  intros Hp Hr Hl Hc Hd. split.
  - unfold streamResponse. rewrite Hp. unfold bind, emit, emits. simpl.
    rewrite Hr. rewrite (@run_stream_done res ls fs done Hl Hc Hd). reflexivity.
  - intros Hs Ho. apply assemble_plain; auto.
Qed.

End StreamResult.

Lemma streamed_text_is_assembled_witness :
  let rt := Sample.runtime Sample.no_batch (inr Sample.hello_stream) in
  fst (streamResponse rt [] (Sample.options true) Sample.fresh)
  = Ret ({| text := assemble true [js "Hel"; js "lo"]; tokens := 0 |}, []) /\
  (forallb single_newlines [js "Hel"; js "lo"] = true ->
   opens_with_text [js "Hel"; js "lo"] = true ->
   assemble true [js "Hel"; js "lo"] = List.concat [js "Hel"; js "lo"]).
Proof.
  apply (@streamed_text_is_assembled
           (Sample.runtime Sample.no_batch (inr Sample.hello_stream))
           [] [] (Sample.options true) Sample.fresh Sample.hello_stream
           [js "data: " ++ Sample.delta_payload (js "Hel");
            js "data: " ++ Sample.delta_payload (js "lo")]
           [js "Hel"; js "lo"] (js "data: [DONE]")).
  - reflexivity.
  - reflexivity.
  - vm_compute. reflexivity.
  - repeat constructor; vm_compute; reflexivity.
  - vm_compute. reflexivity.
Defined.

(** C4 as stated fails: a fragment with a blank line in it reaches the
    result with a single newline, which is not the concatenation of the
    fragment texts. *)
Lemma streamed_text_is_not_the_concatenation :
  let rt := Sample.runtime Sample.no_batch (inr Sample.paragraphs_stream) in
  let fragment := js "a" ++ [LF; LF] ++ js "b" in
  flat_map kept_lines (chunks Sample.paragraphs_stream)
  = [js "data: " ++ Sample.delta_payload (js "a\n\nb"); js "data: [DONE]"] /\
  carries rt (js "data: " ++ Sample.delta_payload (js "a\n\nb")) fragment /\
  is_done (js "data: [DONE]") = true /\
  fst (streamResponse rt [] (Sample.options true) Sample.fresh)
  = Ret ({| text := js "a" ++ [LF] ++ js "b"; tokens := 0 |}, []) /\
  js "a" ++ [LF] ++ js "b" <> List.concat [fragment].
Proof.
  repeat split; try (vm_compute; reflexivity).
  vm_compute. discriminate.
Qed.

(** ** The session controller *)

Section ControllerFacts.

Variable rt : Runtime.

Lemma getPrviousRequests_world (w : world) :
  snd (getPrviousRequests rt w) = w.
Proof.
  destruct w as [f tr]. unfold getPrviousRequests, bind, read_log, lift, ret.
  cbv beta iota delta [log].
  destruct (parse_log rt f) as [v| |]; try reflexivity.
  destruct (slice_last v) as [l| |]; try reflexivity.
  destruct (length_is_0 l); [reflexivity|].
  destruct (get_first (Some l)); reflexivity.
Qed.

(** Building the message list leaves the world as it is. *)
Lemma opening_world (options : Options) (request : jsstring) (w : world) :
  snd (opening rt options request w) = w.
Proof.
  unfold opening, bind. destruct (chat options).
  - pose proof (getPrviousRequests_world w) as H.
    destruct (getPrviousRequests rt w) as [[v| |] w']; simpl in *; subst;
      reflexivity.
  - reflexivity.
Qed.

(** The backend call does not touch the log. *)
Lemma LLM_fetch_log (queries : list json) (options : Options) (w : world) :
  log (snd (LLM_fetch rt queries options w)) = log w.
Proof.
  unfold LLM_fetch. destruct (stream options).
  - unfold streamResponse, bind, emit, emits, ret, lift.
    destruct (with_prompt rt queries options) as [e|messages]; simpl;
      [reflexivity|].
    destruct (createChatCompletionStream rt _) as [e|res]; simpl;
      [reflexivity|].
    destruct (resolved (run_stream rt res)); reflexivity.
  - unfold fetch_batch, catch_batch, bind, emit, ret. simpl.
    destruct (createChatCompletion rt _) as [e|response]; simpl.
    + destruct (has_response e); reflexivity.
    + destruct (get_field (hd_error queries) (js "content")) as [v|e|];
        simpl; try reflexivity.
      destruct (has_response e); reflexivity.
Qed.

Lemma closing_spec (options : Options) (request : jsstring)
    (useSpinner : bool) (g : GptResult) (ms : list json) (w : world)
    (items : list json) :
  log_items (log w) = Some items ->
  closing rt options request useSpinner (g, ms) w =
    (Ret (trim (text g)),
     {| log := Holds (JArr (items ++
                            [jsonLog (log_entry rt options request g ms)]));
        trace := ((trace w ++ shown rt options request useSpinner g ms)
                  ++ created (log w))
                 ++ [LogWrite
                       (JArr (items ++
                              [jsonLog (log_entry rt options request g ms)]))]
     |}).
Proof.
  intros H. unfold closing, shown, bind, when, emit, ret. simpl fst. simpl snd.
  destruct (negb (stream options) && useSpinner), (stats options);
    cbn [log trace];
    match goal with |- context [appendToLog rt ?j ?w'] =>
      rewrite (@appendToLog_spec rt j w' items H) end;
    cbn [log trace]; rewrite <- ?app_assoc; simpl; rewrite ?app_nil_r;
    reflexivity.
Qed.

(** [fetch] once the backend has answered. *)
Lemma fetch_spec (options : Options) (request : jsstring) (useSpinner : bool)
    (w w2 : world) (queries ms items : list json) (g : GptResult) :
  fst (opening rt options request w) = Ret queries ->
  LLM_fetch rt queries options w = (Ret (g, ms), w2) ->
  log_items (log w) = Some items ->
  fetch rt options request useSpinner w =
    closing rt options request useSpinner (g, ms) w2 /\
  log_items (log w2) = Some items.
Proof.
  intros Ho Hf Hl. unfold fetch, bind.
  pose proof (opening_world options request w) as Hw.
  destruct (opening rt options request w) as [o w1]. simpl in Ho, Hw. subst.
  rewrite Hf. split; [reflexivity|].
  pose proof (LLM_fetch_log queries options w) as E. rewrite Hf in E.
  simpl in E. rewrite E. exact Hl.
Qed.

Lemma last_logged_tokens_entry (items : list json) (e : LogEntry)
    (tr : list event) :
  last_logged_tokens {| log := Holds (JArr (items ++ [jsonLog e])); trace := tr |}
  = Some (JNum (inject_Z (entry_tokens e))).
Proof.
  unfold last_logged_tokens. simpl. rewrite map_app. simpl.
  rewrite last_last. reflexivity.
Qed.

End ControllerFacts.

Section Exchange.

Variable rt : Runtime.

Lemma on_lines_resolved (u : option Z) (lines : list jsstring)
    (st : stream_state) (r : GptResult) :
  resolved (on_lines rt u lines st) = Some r ->
  resolved st = Some r \/ tokens r = usage_or_0 u.
Proof.
  revert st. induction lines as [|l lines IH]; intros st; simpl; [auto|].
  destruct (str_eqb (replace_data_prefix l) (js "[DONE]")).
  - simpl. destruct (resolved st); [auto|].
    intros E; injection E as <-. right. reflexivity.
  - destruct (delta_content rt (replace_data_prefix l)) as [content| |];
      try (intros H; apply IH in H; exact H).
    destruct (truthy content); [|apply IH].
    destruct content as [[| | |text| |]|];
      try (intros H; apply IH in H; exact H).
    destruct (first st && match_all (Star (Cls is_space)) text);
      intros H; apply IH in H; exact H.
Qed.

Lemma run_stream_tokens (res : event_stream) (r : GptResult) :
  resolved (run_stream rt res) = Some r ->
  tokens r = usage_or_0 (stream_usage res).
Proof.
  unfold run_stream.
  assert (G : forall cs st,
             resolved (fold_left (on_data rt (stream_usage res)) cs st) = Some r ->
             resolved st = Some r \/ tokens r = usage_or_0 (stream_usage res)).
  { induction cs as [|c cs IH]; intros st H; [auto|].
    simpl in H. apply IH in H as [H|H]; [|auto].
    unfold on_data in H. apply on_lines_resolved in H. exact H. }
  intros H. apply G in H as [H|H]; [discriminate | exact H].
Qed.




(** C3, amended. In streaming mode, when the provider reports no usage
    total, the backend result has token count 0 and [fetch] puts the local
    estimate, the token count of the expanded request text followed by the
    response text, in its place: the entry appended to the log records that
    estimate, and the statistics line shows the same figure. *)
Theorem unknown_usage_is_estimated (options : Options) (request : jsstring)
    (useSpinner : bool) (w : world) (queries messages items : list json)
    (res : event_stream) (r : GptResult) :
  stream options = true ->
  fst (opening rt options request w) = Ret queries ->
  log_items (log w) = Some items ->
  with_prompt rt queries options = inr messages ->
  createChatCompletionStream rt (stream_request rt messages options) = inr res ->
  stream_usage res = None ->
  resolved (run_stream rt res) = Some r ->
  let estimate := countTokens rt (request ++ text r) in
  let w' := snd (fetch rt options request useSpinner w) in
  tokens r = 0%Z /\
  fst (fetch rt options request useSpinner w) = Ret (trim (text r)) /\
  last_logged_tokens w' = Some (JNum (inject_Z estimate)) /\
  (stats options = true ->
   In (stats_line options estimate (cost_of rt options estimate)
         (Qmake (time_end rt - time_start rt) 1000))
      (trace w')).
Proof.
  intros Hs Ho Hl Hp Hr Hu Hres estimate w'.
  assert (Ht : tokens r = 0%Z).
  { rewrite (@run_stream_tokens res r Hres), Hu. reflexivity. }
  assert (Hf : LLM_fetch rt queries options w
               = (Ret (r, messages),
                  {| log := log w;
                     trace := (trace w ++ [ApiCall (stream_request rt messages
                                                      options)])
                              ++ written (run_stream rt res) |})).
  { unfold LLM_fetch. rewrite Hs. unfold streamResponse, bind, emit, emits, ret.
    rewrite Hp. simpl. rewrite Hr. simpl. rewrite Hres. reflexivity. }
  destruct (@fetch_spec rt options request useSpinner w _ queries messages
              items r Ho Hf Hl) as [E Hl2].
  assert (Ee : entry_tokens (log_entry rt options request r messages)
               = estimate).
  { simpl. unfold counted_tokens. rewrite Ht. reflexivity. }
  subst w'.
  rewrite E, (@closing_spec rt options request useSpinner r messages _ items
                Hl2).
  split; [exact Ht|]. split; [reflexivity|]. split.
  - simpl snd. rewrite last_logged_tokens_entry, Ee. reflexivity.
  - intros Hst. simpl snd. cbn [trace].
    apply in_or_app; left. apply in_or_app; left. apply in_or_app; right.
    unfold shown. rewrite Hst. apply in_or_app; right.
    left. cbn [cost duration log_entry]. fold estimate.
    change (counted_tokens rt request r) with
      (entry_tokens (log_entry rt options request r messages)).
    rewrite Ee. reflexivity.
Qed.

(** C8. When the expansion of the request fails, and on every dry run,
    [submitChat] makes no backend call and leaves the log as it is; it
    returns, or throws because the input file cannot be read. *)
Theorem no_backend_no_log (type : jsstring) (args : list jsstring)
    (options : Options) (useSpinner : bool) (w : world) :
  dryrun options = true \/
  (exists request w1,
     read_request rt type args w = (Ret (Some request), w1) /\
     fst (fst (importFiles (normalizePath rt) (readFileSync rt) (max_arguments rt) request))
     = false) ->
  let run := submitChat rt type args options useSpinner w in
  untouched w (snd run) /\
  (fst run = Ret tt \/ exists path, fst run = Throw (FsError path)).
Proof.
  intros H run. subst run. unfold submitChat, bind.
  assert (Q : forall spin request,
            dryrun options = true \/
            fst (fst (importFiles (normalizePath rt) (readFileSync rt) (max_arguments rt) request))
            = false ->
            untouched w (snd (submit rt type options spin request w)) /\
            fst (submit rt type options spin request w) = Ret tt).
  { intros spin request Hq. unfold submit.
    destruct (importFiles (normalizePath rt) (readFileSync rt) (max_arguments rt) request)
      as [[success text] diffFiles]. simpl in Hq.
    destruct success; simpl.
    - destruct Hq as [Hd | Hq]; [|discriminate]. rewrite Hd.
      unfold bind, emit. simpl. split; [|reflexivity].
      split; [reflexivity|].
      exists [ConsoleLog text; Estimate (countTokens rt text)].
      rewrite <- app_assoc. split; reflexivity.
    - unfold emit. simpl. split; [|reflexivity].
      split; [reflexivity|]. exists [ConsoleError text]. split; reflexivity. }
  assert (U0 : untouched w w).
  { split; [reflexivity|]. exists []. rewrite app_nil_r. split; reflexivity. }
  unfold read_request in *.
  destruct (str_eqb type (js "input")).
  - destruct args as [|a0 [|inputFile args]].
    + unfold bind, emit, ret. simpl. split; [|left; reflexivity].
      split; [reflexivity|]. eexists; split; reflexivity.
    + unfold bind, emit, ret. simpl. split; [|left; reflexivity].
      split; [reflexivity|]. eexists; split; reflexivity.
    + destruct (readFileSync rt inputFile) as [request|].
      * unfold ret. simpl.
        destruct (Q (if isatty rt then useSpinner else false) request)
          as [U R].
        { destruct H as [H | (request' & w1 & E & H)]; [left; exact H|].
          right. unfold ret in E. injection E as <- <-. exact H. }
        split; [exact U | left; exact R].
      * unfold throw. simpl. split; [exact U0 | right; eexists; reflexivity].
  - unfold ret in *. simpl.
    destruct (Q (if isatty rt then useSpinner else false)
                (join (js " ") (tl args))) as [U R].
    { destruct H as [H | (request' & w1 & E & H)]; [left; exact H|].
      right. injection E as <- <-. exact H. }
    split; [exact U | left; exact R].
Qed.

End Exchange.



Lemma unknown_usage_is_estimated_witness :
  let rt := Sample.runtime Sample.no_batch (inr Sample.hello_stream) in
  let options := Sample.options true in
  let r := {| text := js "Hello"; tokens := 0 |} in
  let estimate := countTokens rt (js "hi" ++ text r) in
  let w' := snd (fetch rt options (js "hi") false Sample.fresh) in
  tokens r = 0%Z /\
  fst (fetch rt options (js "hi") false Sample.fresh) = Ret (trim (text r)) /\
  last_logged_tokens w' = Some (JNum (inject_Z estimate)) /\
  (stats options = true ->
   In (stats_line options estimate (cost_of rt options estimate)
         (Qmake (time_end rt - time_start rt) 1000))
      (trace w')).
Proof.
  apply (@unknown_usage_is_estimated
           (Sample.runtime Sample.no_batch (inr Sample.hello_stream))
           (Sample.options true) (js "hi") false Sample.fresh
           [message "user" (js "hi")] [message "user" (js "hi")] []
           Sample.hello_stream {| text := js "Hello"; tokens := 0 |}).
  - reflexivity.
  - reflexivity.
  - reflexivity.
  - reflexivity.
  - reflexivity.
  - reflexivity.
  - vm_compute. reflexivity.
Defined.

(** C3 as stated fails: the provider reports no usage and the backend
    result carries 0, yet the entry in the log records the estimate (7 with
    the sample counter, for the request [hi] and the response [Hello]),
    not 0. *)
Lemma streamed_exchange_logs_the_estimate :
  let rt := Sample.runtime Sample.no_batch (inr Sample.hello_stream) in
  let options := Sample.options true in
  stream options = true /\
  stream_usage Sample.hello_stream = None /\
  fst (LLM_fetch rt [message "user" (js "hi")] options Sample.fresh)
  = Ret ({| text := js "Hello"; tokens := 0 |}, [message "user" (js "hi")]) /\
  last_logged_tokens (snd (fetch rt options (js "hi") false Sample.fresh))
  = Some (JNum (inject_Z 7)) /\
  last_logged_tokens (snd (fetch rt options (js "hi") false Sample.fresh))
  <> Some (JNum (inject_Z 0)).
Proof.
  repeat split; try (vm_compute; reflexivity).
  vm_compute. discriminate.
Qed.

Lemma no_backend_no_log_witness :
  let rt := Sample.runtime Sample.no_batch Sample.no_stream in
  let run :=
    submitChat rt (js "ask") [js "ask"; js "#import"; js "a.txt"]
      Sample.dry_run true Sample.fresh in
  untouched Sample.fresh (snd run) /\
  (fst run = Ret tt \/ exists path, fst run = Throw (FsError path)).
Proof.
  apply (@no_backend_no_log
           (Sample.runtime Sample.no_batch Sample.no_stream)
           (js "ask") [js "ask"; js "#import"; js "a.txt"] Sample.dry_run true
           Sample.fresh).
  left. reflexivity.
Defined.

(** * Further properties of the code *)

Import Cover.

(** ** importFiles, line by line *)

Section ExpanderLines.

Variable normalizePath : jsstring -> jsstring.
Variable readFileSync : jsstring -> option jsstring.
Variable max_arguments : N.

Local Abbreviation loop :=
  (importLoop normalizePath readFileSync max_arguments).
Local Abbreviation expand :=
  (importFiles normalizePath readFileSync max_arguments).
Local Abbreviation ok := (usable normalizePath readFileSync max_arguments).
Local Abbreviation path_of := (fun line => normalizePath (fname_of line)).

(** The [try] of a directive line gives lines exactly when its file is
    usable. *)
Lemma usable_directive (line : jsstring) :
  is_directive line = true ->
  ok line = match read_lines readFileSync max_arguments (path_of line) with
            | Some _ => true
            | None => false
            end.
Proof.
  intros Hd. unfold usable, read_lines. rewrite Hd. simpl.
  destruct (readFileSync (normalizePath (fname_of line))); [|reflexivity].
  cbv zeta. destruct (N.leb _ _); reflexivity.
Qed.

(** The lines the [try] gives are those of the file. *)
Lemma read_lines_contents (filePath : jsstring) (fileLines : list jsstring) :
  read_lines readFileSync max_arguments filePath = Some fileLines ->
  exists fileContents,
    readFileSync filePath = Some fileContents /\
    fileLines = split_nl fileContents.
Proof.
  unfold read_lines. destruct (readFileSync filePath) as [c|]; [|discriminate].
  cbv zeta. destruct (N.leb _ _); [|discriminate].
  intros E. injection E as <-. exists c. auto.
Qed.

Lemma importLoop_success (lines m d : list jsstring) :
  fst (fst (loop lines m d)) = forallb ok lines.
Proof.
  revert m d. induction lines as [|line lines IH]; intros m d; [reflexivity|].
  simpl. destruct (is_directive line) eqn:Ed.
  - rewrite (usable_directive line Ed). unfold is_directive in Ed. rewrite Ed.
    destruct (read_lines readFileSync max_arguments
                (normalizePath (fname_of line))); simpl;
      [apply IH | reflexivity].
  - unfold usable. rewrite Ed. unfold is_directive in Ed. rewrite Ed.
    simpl. apply IH.
Qed.

Lemma importLoop_text (lines m d : list jsstring) :
  forallb ok lines = true ->
  snd (fst (loop lines m d))
  = join_nl (m ++ flat_map (expand_line normalizePath readFileSync) lines).
Proof.
  revert m d. induction lines as [|line lines IH]; intros m d H.
  - simpl. rewrite app_nil_r. reflexivity.
  - simpl in H. apply andb_true_iff in H as [Hl H].
    simpl. unfold expand_line. destruct (is_directive line) eqn:Ed.
    + rewrite (usable_directive line Ed) in Hl.
      unfold is_directive in Ed. rewrite Ed.
      destruct (read_lines readFileSync max_arguments
                  (normalizePath (fname_of line))) as [fileLines|] eqn:Er;
        [|discriminate].
      apply read_lines_contents in Er as (c & -> & ->).
      rewrite IH by exact H. rewrite <- app_assoc. reflexivity.
    + unfold is_directive in Ed. rewrite Ed.
      rewrite IH by exact H. rewrite <- app_assoc. reflexivity.
Qed.

Lemma importLoop_targets (lines m d : list jsstring) :
  snd (loop lines m d)
  = d ++ map path_of
           (filter (match_start diffRe)
              (scanned normalizePath readFileSync max_arguments lines)).
Proof.
  revert m d. induction lines as [|line lines IH]; intros m d.
  - simpl. rewrite app_nil_r. reflexivity.
  - simpl. destruct (is_directive line) eqn:Ed.
    + rewrite (usable_directive line Ed).
      unfold is_directive in Ed. rewrite Ed.
      destruct (read_lines readFileSync max_arguments
                  (normalizePath (fname_of line))); simpl;
        destruct (match_start diffRe line); simpl;
        rewrite ?IH, <- ?app_assoc, ?app_nil_r; reflexivity.
    + unfold usable. rewrite Ed. simpl.
      unfold is_directive in Ed. rewrite Ed.
      apply orb_false_iff in Ed as [_ Ed]. rewrite Ed. apply IH.
Qed.

Lemma importLoop_failure (lines m d : list jsstring) :
  fst (fst (loop lines m d)) = false ->
  exists pre line post,
    lines = pre ++ line :: post /\
    forallb ok pre = true /\
    is_directive line = true /\
    ok line = false /\
    snd (fst (loop lines m d)) = not_found (path_of line).
Proof.
  revert m d. induction lines as [|line lines IH]; intros m d H;
    [discriminate|].
  simpl in H |- *. destruct (is_directive line) eqn:Ed.
  - pose proof (usable_directive line Ed) as U.
    unfold is_directive in Ed. rewrite Ed in H |- *.
    destruct (read_lines readFileSync max_arguments
                (normalizePath (fname_of line))) eqn:Er.
    + destruct (IH _ _ H) as (pre & bad & post & -> & Hp & Hd & Hu & Ht).
      exists (line :: pre), bad, post. simpl. rewrite U, Hp. auto.
    + exists [], line, lines. simpl. unfold is_directive. rewrite Ed. auto.
  - assert (U : ok line = true) by (unfold usable; rewrite Ed; reflexivity).
    unfold is_directive in Ed. rewrite Ed in H |- *.
    destruct (IH _ _ H) as (pre & bad & post & -> & Hp & Hd & Hu & Ht).
    exists (line :: pre), bad, post. simpl. rewrite U, Hp. auto.
Qed.

(** X1. The expansion succeeds exactly when the file of every directive
    line is usable: it can be read and has no more lines than a call takes
    arguments.  A file that can be read but has more lines fails like a
    missing one. *)
Theorem expansion_succeeds_iff_files_usable (content : jsstring) :
  fst (fst (expand content)) = forallb ok (split_nl content).
Proof. apply importLoop_success. Qed.

(** X2. On success the text is made line by line: a directive line gives
    the lines of its file, every other line itself, in order and joined by
    newlines.  The lines of a file are put in as they are: a directive
    inside an imported file is not expanded. *)
Theorem expanded_text_is_linewise (content : jsstring) :
  fst (fst (expand content)) = true ->
  snd (fst (expand content))
  = join_nl (flat_map (expand_line normalizePath readFileSync)
               (split_nl content)).
Proof.
  intros H. unfold importFiles in *. rewrite importLoop_success in H.
  rewrite importLoop_text by exact H. reflexivity.
Qed.

(** X3. The diff targets are the normalized paths of the [#diff] lines the
    loop has looked at, in their order and with repetitions: all [#diff]
    lines on success, and on failure those up to and including the first
    directive whose file is not usable. *)
Theorem diff_targets_in_order (content : jsstring) :
  snd (expand content)
  = map path_of
      (filter (match_start diffRe)
         (scanned normalizePath readFileSync max_arguments
            (split_nl content))).
Proof. unfold importFiles. rewrite importLoop_targets. reflexivity. Qed.

(** X6. Every failure names the file of the first directive line whose
    [try] failed: the text is [#import file P was not found] for the path
    [P] read for that line, also when the line is a [#diff] line, and the
    file at [P] cannot be read or, though it can, has more lines than a call
    takes arguments. *)
Theorem failure_names_unusable_file (content : jsstring) :
  fst (fst (expand content)) = false ->
  exists pre line post,
    split_nl content = pre ++ line :: post /\
    forallb ok pre = true /\
    is_directive line = true /\
    snd (fst (expand content)) = not_found (path_of line) /\
    (readFileSync (path_of line) = None \/
     exists fileContents,
       readFileSync (path_of line) = Some fileContents /\
       (max_arguments < N.of_nat (List.length (split_nl fileContents)))%N).
Proof.
  intros H. unfold importFiles in *.
  destruct (importLoop_failure _ _ _ H)
    as (pre & line & post & E & Hp & Hd & Hu & Ht).
  exists pre, line, post. repeat split; try assumption.
  unfold usable in Hu. rewrite Hd in Hu. simpl in Hu.
  destruct (readFileSync (normalizePath (fname_of line))) as [c|];
    [right | left; reflexivity].
  exists c. split; [reflexivity|]. apply N.leb_gt. exact Hu.
Qed.

End ExpanderLines.

Section DirectiveLines.

Lemma trimStart_spaces (ws : jsstring) :
  forallb is_space ws = true -> trimStart ws = [].
Proof.
  induction ws as [|c ws IH]; [reflexivity|]. simpl. intros H.
  apply andb_true_iff in H as [Hc H]. rewrite Hc. auto.
Qed.

Lemma trimStart_directive (keyword : string) (line : jsstring) :
  js keyword <> [] ->
  forallb (fun c => negb (is_space c)) (js keyword) = true ->
  match_start (directiveRe keyword) line = true ->
  exists rest, trimStart line = js keyword ++ rest.
Proof.
  intros NE Hk H.
  apply directive_shape in H
    as (ws & sp & sps & c & rest & -> & Hws & _).
  destruct (js keyword) as [|k ks] eqn:Ek; [congruence|].
  simpl in Hk. apply andb_true_iff in Hk as [Hk _].
  apply negb_true_iff in Hk.
  exists ((sp :: sps) ++ c :: rest).
  simpl app at 2. rewrite trimStart_app_stop by exact Hk.
  rewrite trimStart_spaces by exact Hws. reflexivity.
Qed.

(** X4. No line is both an [#import] and a [#diff] directive: an [#import]
    line never adds a diff target. *)
Theorem import_and_diff_exclude (line : jsstring) :
  match_start importRe line && match_start diffRe line = false.
Proof.
  destruct (match_start importRe line) eqn:Ei; [|reflexivity].
  destruct (match_start diffRe line) eqn:Ed; [|reflexivity].
  apply (@trimStart_directive "#import") in Ei as [r1 E1];
    [|discriminate|reflexivity].
  apply (@trimStart_directive "#diff") in Ed as [r2 E2];
    [|discriminate|reflexivity].
  rewrite E1 in E2. discriminate.
Qed.

(** X5. A directive has to start its line: a line whose first character
    after leading white space is not [#] is no directive, whatever follows
    in it. *)
Theorem directive_starts_its_line (line : jsstring) :
  hd_error (trimStart line) <> Some 35%N -> is_directive line = false.
Proof.
  intros H. destruct (is_directive line) eqn:Ed; [|reflexivity].
  exfalso. apply H. unfold is_directive in Ed.
  apply orb_true_iff in Ed as [E|E].
  - apply (@trimStart_directive "#import") in E as [r ->];
      [reflexivity|discriminate|reflexivity].
  - apply (@trimStart_directive "#diff") in E as [r ->];
      [reflexivity|discriminate|reflexivity].
Qed.

End DirectiveLines.

Lemma expanded_text_is_linewise_witness :
  let expand := importFiles (normalizePath_spec Sample.home) Sample2.nested
      Sample.node_limit in
  let content := js "head" ++ [LF] ++ js "#import outer.txt" in
  snd (fst (expand content))
  = join_nl
      (flat_map (expand_line (normalizePath_spec Sample.home) Sample2.nested)
         (split_nl content)).
Proof.
  apply (@expanded_text_is_linewise (normalizePath_spec Sample.home)
           Sample2.nested Sample.node_limit
           (js "head" ++ [LF] ++ js "#import outer.txt")).
  vm_compute. reflexivity.
Defined.

Lemma failure_names_unusable_file_witness :
  let normalizePath := normalizePath_spec Sample.home in
  let expand := importFiles normalizePath Sample2.oversized Sample.node_limit in
  let content := js "intro" ++ [LF] ++ js "#diff big.txt" in
  exists pre line post,
    split_nl content = pre ++ line :: post /\
    forallb (usable normalizePath Sample2.oversized Sample.node_limit) pre
    = true /\
    is_directive line = true /\
    snd (fst (expand content)) = not_found (normalizePath (fname_of line)) /\
    (Sample2.oversized (normalizePath (fname_of line)) = None \/
     exists fileContents,
       Sample2.oversized (normalizePath (fname_of line)) = Some fileContents /\
       (Sample.node_limit
        < N.of_nat (List.length (split_nl fileContents)))%N).
Proof.
  apply (@failure_names_unusable_file (normalizePath_spec Sample.home)
           Sample2.oversized Sample.node_limit
           (js "intro" ++ [LF] ++ js "#diff big.txt")).
  vm_compute. reflexivity.
Defined.

Lemma directive_starts_its_line_witness :
  is_directive (js "Hello #import greeting.txt world") = false.
Proof.
  apply (@directive_starts_its_line (js "Hello #import greeting.txt world")).
  vm_compute. discriminate.
Defined.

(** ** The log file, entry by entry *)

Section LogEntries.

Variable rt : Runtime.

(** X7. On a log that is missing or holds an array, [appendToLog] returns,
    keeps every earlier entry in its place and puts the new entry last; a
    missing log counts as empty. *)
Theorem append_keeps_earlier_entries (j : json) (w : world)
    (items : list json) :
  log_items (log w) = Some items ->
  fst (appendToLog rt j w) = Ret tt /\
  log_items (log (snd (appendToLog rt j w))) = Some (items ++ [j]).
Proof.
  intros H. rewrite (@appendToLog_spec rt j w items H). auto.
Qed.

(** X8. On a log file that is no JSON, or no JSON array, [appendToLog]
    throws and writes nothing: the file stays as it is and the entry is
    lost. *)
Theorem append_to_unusable_log_throws (j : json) (w : world) :
  log_items (log w) = None ->
  (fst (appendToLog rt j w) = Throw SyntaxError \/
   fst (appendToLog rt j w) = Throw TypeError) /\
  snd (appendToLog rt j w) = w.
Proof.
  destruct w as [f tr]. simpl. intros H.
  destruct f as [| |v]; simpl in H; try discriminate.
  - split; [left|]; reflexivity.
  - destruct v; try discriminate; split; try (right; reflexivity);
      reflexivity.
Qed.

(** X9. [getPrviousRequests] on a log that holds an array looks at the last
    entry only: it returns the empty array for an empty log and otherwise
    the [messages] property of the last entry ([undefined] when that entry
    is an object without one), and it changes nothing. *)
Theorem previous_requests_read_last_entry (w : world) (items : list json) :
  log w = Holds (JArr items) ->
  getPrviousRequests rt w
  = (match rev items with
     | [] => Ret (Some (JArr []))
     | e :: _ => get_field (Some e) (js "messages")
     end, w).
Proof.
  intros H. destruct (rev items) as [|e l] eqn:E.
  - apply (f_equal (@rev json)) in E. rewrite rev_involutive in E. subst.
    apply getPrviousRequests_empty. exact H.
  - apply (f_equal (@rev json)) in E. rewrite rev_involutive in E.
    simpl in E. subst. apply (@getPrviousRequests_last rt w (rev l) e H).
Qed.

End LogEntries.

Lemma append_keeps_earlier_entries_witness :
  let rt := Sample.runtime Sample.no_batch Sample.no_stream in
  let w := Sample2.with_log (Holds (JArr [JNull; JStr (js "old")])) in
  fst (appendToLog rt (JStr (js "new")) w) = Ret tt /\
  log_items (log (snd (appendToLog rt (JStr (js "new")) w)))
  = Some ([JNull; JStr (js "old")] ++ [JStr (js "new")]).
Proof.
  apply (@append_keeps_earlier_entries
           (Sample.runtime Sample.no_batch Sample.no_stream)
           (JStr (js "new"))
           (Sample2.with_log (Holds (JArr [JNull; JStr (js "old")])))
           [JNull; JStr (js "old")]).
  reflexivity.
Defined.

Lemma append_to_unusable_log_throws_witness :
  let rt := Sample.runtime Sample.no_batch Sample.no_stream in
  let w := Sample2.with_log (Holds (JObj [])) in
  (fst (appendToLog rt JNull w) = Throw SyntaxError \/
   fst (appendToLog rt JNull w) = Throw TypeError) /\
  snd (appendToLog rt JNull w) = w.
Proof.
  apply (@append_to_unusable_log_throws
           (Sample.runtime Sample.no_batch Sample.no_stream) JNull
           (Sample2.with_log (Holds (JObj [])))).
  reflexivity.
Defined.

Lemma previous_requests_read_last_entry_witness :
  let rt := Sample.runtime Sample.no_batch Sample.no_stream in
  let items :=
    [JObj [(js "messages", JStr (js "first"))];
     JObj [(js "messages", JArr [message "user" (js "second")])]] in
  getPrviousRequests rt (Sample2.with_log (Holds (JArr items)))
  = (match rev items with
     | [] => Ret (Some (JArr []))
     | e :: _ => get_field (Some e) (js "messages")
     end, Sample2.with_log (Holds (JArr items))).
Proof.
  apply (@previous_requests_read_last_entry
           (Sample.runtime Sample.no_batch Sample.no_stream)
           (Sample2.with_log
              (Holds (JArr
                 [JObj [(js "messages", JStr (js "first"))];
                  JObj [(js "messages",
                         JArr [message "user" (js "second")])]])))).
  reflexivity.
Defined.

(** ** One exchange and the next *)

Section Turns.

Variable rt : Runtime.

Lemma appendToLog_unusable (j : json) (w : world) :
  log_items (log w) = None ->
  (fst (appendToLog rt j w) = Throw SyntaxError \/
   fst (appendToLog rt j w) = Throw TypeError) /\
  snd (appendToLog rt j w) = w.
Proof.
  destruct w as [f tr]. simpl. intros H.
  destruct f as [| |v]; simpl in H; try discriminate.
  - split; [left|]; reflexivity.
  - destruct v; try discriminate; split; try (right; reflexivity);
      reflexivity.
Qed.

(** [fetch] is [closing] from the world the backend call leaves, which has
    the log of the start. *)
Lemma fetch_closing (options : Options) (request : jsstring)
    (useSpinner : bool) (w w2 : world) (queries : list json)
    (r : GptResult * list json) :
  fst (opening rt options request w) = Ret queries ->
  LLM_fetch rt queries options w = (Ret r, w2) ->
  fetch rt options request useSpinner w
  = closing rt options request useSpinner r w2 /\
  log w2 = log w.
Proof.
  intros Ho Hf. unfold fetch, bind.
  pose proof (opening_world rt options request w) as Hw.
  destruct (opening rt options request w) as [o w1]. simpl in Ho, Hw. subst.
  rewrite Hf. split; [reflexivity|].
  pose proof (LLM_fetch_log rt queries options w) as E. rewrite Hf in E.
  exact E.
Qed.

(** The world [fetch] leaves when the backend has answered and the log can
    be used. *)
Lemma fetch_logged (options : Options) (request : jsstring)
    (useSpinner : bool) (w w2 : world) (queries ms items : list json)
    (g : GptResult) :
  fst (opening rt options request w) = Ret queries ->
  LLM_fetch rt queries options w = (Ret (g, ms), w2) ->
  log_items (log w) = Some items ->
  fst (fetch rt options request useSpinner w) = Ret (trim (text g)) /\
  log (snd (fetch rt options request useSpinner w))
  = Holds (JArr (items ++ [jsonLog (log_entry rt options request g ms)])).
Proof.
  intros Ho Hf Hl.
  destruct (@fetch_spec rt options request useSpinner w w2 queries ms items g
              Ho Hf Hl) as [E Hl2].
  rewrite E, (@closing_spec rt options request useSpinner g ms w2 items Hl2).
  auto.
Qed.

(** X10. The next exchange with the chat option starts from the exchange
    last logged: its message list is the messages the backend was sent,
    then the assistant message with the trimmed answer, then the new user
    message; without the chat option it is the new user message alone. *)
Theorem next_turn_replays_last_exchange (options next : Options)
    (request request2 : jsstring) (useSpinner : bool) (w w2 : world)
    (queries ms items : list json) (g : GptResult) :
  fst (opening rt options request w) = Ret queries ->
  LLM_fetch rt queries options w = (Ret (g, ms), w2) ->
  log_items (log w) = Some items ->
  let w' := snd (fetch rt options request useSpinner w) in
  fst (opening rt next request2 w')
  = if chat next
    then Ret (ms ++ [message "assistant" (trim (text g));
                     message "user" request2])
    else Ret [message "user" request2].
Proof.
  intros Ho Hf Hl w'.
  destruct (@fetch_logged options request useSpinner w w2 queries ms items g
              Ho Hf Hl) as [_ E].
  fold w' in E. unfold opening, bind. destruct (chat next); [|reflexivity].
  rewrite (@getPrviousRequests_last rt w' items _ E). simpl.
  rewrite <- app_assoc. reflexivity.
Qed.

(** X11. In batch mode [LLM.fetch] always comes back with a value: it
    sends one request, carrying the messages as they are (the prompt option
    is not looked at), leaves the message list unchanged and neither throws
    nor stays pending. *)
Theorem batch_fetch_always_answers (queries : list json) (options : Options)
    (w : world) :
  stream options = false ->
  exists g evs,
    LLM_fetch rt queries options w
    = (Ret (g, queries),
       {| log := log w;
          trace := trace w ++ ApiCall (batch_request rt queries options) :: evs
       |}) /\
    api_calls evs = 0.
Proof.
  intros Hs. unfold LLM_fetch. rewrite Hs.
  unfold fetch_batch, catch_batch, bind, emit, ret. simpl.
  destruct (createChatCompletion rt (batch_request rt queries options))
    as [e|response]; simpl.
  - destruct (has_response e); simpl; eexists _, _;
      rewrite <- ?app_assoc; simpl; split; reflexivity.
  - destruct (get_field (hd_error queries) (js "content")) as [v|e|]; simpl.
    + eexists _, []. split; reflexivity.
    + destruct (has_response e); simpl; eexists _, _;
        rewrite <- ?app_assoc; simpl; split; reflexivity.
    + eexists _, []. split; reflexivity.
Qed.

(** X12. In streaming mode with a prompt file that can be read, the system
    message with the prompt is put after the messages built so far, the user
    message included; it is sent to the provider and, the array being the
    caller's, it is logged between the user message and the answer. *)
Theorem prompt_is_sent_and_logged (options : Options) (request file : jsstring)
    (promptContent : jsstring) (useSpinner : bool) (w : world)
    (queries items : list json) (res : event_stream) (r : GptResult) :
  stream options = true ->
  given (prompt options) = Some file ->
  readFileSync rt file = Some promptContent ->
  fst (opening rt options request w) = Ret queries ->
  log_items (log w) = Some items ->
  let sent := queries ++ [message "system" promptContent] in
  createChatCompletionStream rt (stream_request rt sent options) = inr res ->
  resolved (run_stream rt res) = Some r ->
  let w' := snd (fetch rt options request useSpinner w) in
  In (ApiCall (stream_request rt sent options)) (trace w') /\
  exists entry,
    log w' = Holds (JArr (items ++ [jsonLog entry])) /\
    messages entry
    = queries ++ [message "system" promptContent;
                  message "assistant" (trim (text r))].
Proof.
  intros Hs Hp Hr Ho Hl sent Hc Hres w'.
  assert (Hf : LLM_fetch rt queries options w
               = (Ret (r, sent),
                  {| log := log w;
                     trace := (trace w ++ [ApiCall (stream_request rt sent
                                                      options)])
                              ++ written (run_stream rt res) |})).
  { unfold LLM_fetch. rewrite Hs.
    unfold streamResponse, with_prompt, bind, emit, emits, ret.
    rewrite Hp, Hr. fold sent. simpl. rewrite Hc. simpl. rewrite Hres.
    reflexivity. }
  destruct (@fetch_spec rt options request useSpinner w _ queries sent items r
              Ho Hf Hl) as [E Hl2].
  subst w'.
  rewrite E, (@closing_spec rt options request useSpinner r sent _ items Hl2).
  simpl snd. cbn [trace log]. split.
  - apply in_or_app; left. apply in_or_app; left. apply in_or_app; left.
    apply in_or_app; left. apply in_or_app; right. left. reflexivity.
  - exists (log_entry rt options request r sent). split; [reflexivity|].
    simpl. unfold sent. rewrite <- app_assoc. reflexivity.
Qed.

(** X13. In streaming mode with a prompt file that cannot be read, the
    provider is not called: the result is the [Error:] text with the
    message of the file error and token count 0, and the message list is as
    before. *)
Theorem unreadable_prompt_is_answered (queries : list json)
    (options : Options) (file : jsstring) (w : world) :
  stream options = true ->
  given (prompt options) = Some file ->
  readFileSync rt file = None ->
  LLM_fetch rt queries options w
  = (Ret ({| text := js "Error:" ++ engine_message rt (FsError file);
             tokens := 0 |}, queries),
     {| log := log w; trace := trace w ++ [Diagnostic] |}).
Proof.
  intros Hs Hp Hr. unfold LLM_fetch. rewrite Hs.
  unfold streamResponse, with_prompt. rewrite Hp, Hr. reflexivity.
Qed.

(** X14. When the backend has answered but the log file is no JSON array,
    [fetch] throws from [appendToLog]: the answer is not returned and the
    log is left as it is. *)
Theorem answer_is_lost_on_unusable_log (options : Options)
    (request : jsstring) (useSpinner : bool) (w w2 : world)
    (queries : list json) (r : GptResult * list json) :
  fst (opening rt options request w) = Ret queries ->
  LLM_fetch rt queries options w = (Ret r, w2) ->
  log_items (log w) = None ->
  (fst (fetch rt options request useSpinner w) = Throw SyntaxError \/
   fst (fetch rt options request useSpinner w) = Throw TypeError) /\
  log (snd (fetch rt options request useSpinner w)) = log w.
Proof.
  intros Ho Hf Hl.
  destruct (@fetch_closing options request useSpinner w w2 queries r Ho Hf)
    as [E El].
  rewrite E. unfold closing, bind, when, emit, ret.
  destruct (negb (stream options) && useSpinner), (stats options);
    cbn [fst snd log trace];
    match goal with |- context [appendToLog rt ?j ?w'] =>
      destruct (@appendToLog_unusable j w') as [[H1|H1] H2];
        [cbn [log]; rewrite El; exact Hl | |];
        destruct (appendToLog rt j w') as [o w3]; simpl in H1, H2; subst;
        cbn [fst snd log]; (split; [auto | exact El])
    end.
Qed.

Lemma on_lines_unresolved (u : option Z) (lines : list jsstring)
    (st : stream_state) :
  forallb (fun l => negb (is_done l)) lines = true ->
  resolved st = None ->
  resolved (on_lines rt u lines st) = None.
Proof.
  revert st. induction lines as [|l lines IH]; intros st H Hn; [exact Hn|].
  simpl in H. apply andb_true_iff in H as [Hl H].
  apply negb_true_iff in Hl. unfold is_done in Hl. simpl. rewrite Hl.
  destruct (delta_content rt (replace_data_prefix l)) as [content| |];
    try (apply IH; assumption).
  destruct (truthy content); [|apply IH; assumption].
  destruct content as [[| | |text| |]|]; try (apply IH; assumption).
  destruct (first st && match_all (Star (Cls is_space)) text);
    apply IH; assumption.
Qed.

Lemma run_stream_unresolved (res : event_stream) :
  forallb (fun l => negb (is_done l)) (flat_map kept_lines (chunks res))
  = true ->
  resolved (run_stream rt res) = None.
Proof.
  unfold run_stream.
  assert (G : forall cs st,
             resolved st = None ->
             forallb (fun l => negb (is_done l)) (flat_map kept_lines cs)
             = true ->
             resolved (fold_left (on_data rt (stream_usage res)) cs st) = None).
  { induction cs as [|c cs IH]; intros st Hn H; [exact Hn|].
    simpl in H. rewrite forallb_app in H. apply andb_true_iff in H as [Hc H].
    simpl. apply IH; [|exact H].
    unfold on_data. apply on_lines_unresolved; assumption. }
  apply G. reflexivity.
Qed.

(** X15. A stream none of whose lines is the end-of-stream signal never
    settles the promise of [streamResponse]: [fetch] does not come back and
    the log is not touched. *)
Theorem stream_without_end_signal_is_pending (options : Options)
    (request : jsstring) (useSpinner : bool) (w : world)
    (queries sent : list json) (res : event_stream) :
  stream options = true ->
  fst (opening rt options request w) = Ret queries ->
  with_prompt rt queries options = inr sent ->
  createChatCompletionStream rt (stream_request rt sent options) = inr res ->
  forallb (fun l => negb (is_done l)) (flat_map kept_lines (chunks res))
  = true ->
  fst (fetch rt options request useSpinner w) = Pending /\
  log (snd (fetch rt options request useSpinner w)) = log w.
Proof.
  intros Hs Ho Hp Hc Hn. unfold fetch, bind.
  pose proof (opening_world rt options request w) as Hw.
  destruct (opening rt options request w) as [o w1]. simpl in Ho, Hw. subst.
  unfold LLM_fetch. rewrite Hs.
  unfold streamResponse, bind, emit, emits, ret, lift.
  rewrite Hp. simpl. rewrite Hc. simpl.
  rewrite (run_stream_unresolved res Hn). auto.
Qed.

End Turns.

Lemma next_turn_replays_last_exchange_witness :
  let rt := Sample.runtime (inr Sample2.answer) Sample.no_stream in
  let w' := snd (fetch rt Sample2.plain_options (js "hi") true Sample.fresh) in
  fst (opening rt Sample2.chat_options (js "more") w')
  = if chat Sample2.chat_options
    then Ret ([message "user" (js "hi")]
              ++ [message "assistant" (trim (text {| text := js " Hi there. ";
                                                      tokens := 42 |}));
                  message "user" (js "more")])
    else Ret [message "user" (js "more")].
Proof.
  apply (@next_turn_replays_last_exchange
           (Sample.runtime (inr Sample2.answer) Sample.no_stream)
           Sample2.plain_options Sample2.chat_options (js "hi") (js "more")
           true Sample.fresh
           (snd (LLM_fetch
                   (Sample.runtime (inr Sample2.answer) Sample.no_stream)
                   [message "user" (js "hi")] Sample2.plain_options
                   Sample.fresh))
           [message "user" (js "hi")] [message "user" (js "hi")] []
           {| text := js " Hi there. "; tokens := 42 |}).
  - reflexivity.
  - reflexivity.
  - reflexivity.
Defined.

Lemma batch_fetch_always_answers_witness :
  let rt := Sample.runtime (inl Sample.hang_up) Sample.no_stream in
  let queries := [message "user" (js "hi")] in
  exists g evs,
    LLM_fetch rt queries Sample2.plain_options Sample.fresh
    = (Ret (g, queries),
       {| log := log Sample.fresh;
          trace := trace Sample.fresh
                   ++ ApiCall (batch_request rt queries Sample2.plain_options)
                      :: evs |}) /\
    api_calls evs = 0.
Proof.
  apply (@batch_fetch_always_answers
           (Sample.runtime (inl Sample.hang_up) Sample.no_stream)
           [message "user" (js "hi")] Sample2.plain_options Sample.fresh).
  reflexivity.
Defined.

Lemma prompt_is_sent_and_logged_witness :
  let rt := Sample.runtime Sample.no_batch (inr Sample.hello_stream) in
  let options := Sample2.prompt_options (js "b.txt") in
  let queries := [message "user" (js "hi")] in
  let sent := queries ++ [message "system" (js "there")] in
  let w' := snd (fetch rt options (js "hi") false Sample.fresh) in
  In (ApiCall (stream_request rt sent options)) (trace w') /\
  exists entry,
    log w' = Holds (JArr ([] ++ [jsonLog entry])) /\
    messages entry
    = queries ++ [message "system" (js "there");
                  message "assistant"
                    (trim (text {| text := js "Hello"; tokens := 0 |}))].
Proof.
  apply (@prompt_is_sent_and_logged
           (Sample.runtime Sample.no_batch (inr Sample.hello_stream))
           (Sample2.prompt_options (js "b.txt")) (js "hi") (js "b.txt")
           (js "there") false Sample.fresh [message "user" (js "hi")] []
           Sample.hello_stream {| text := js "Hello"; tokens := 0 |}).
  - reflexivity.
  - reflexivity.
  - reflexivity.
  - reflexivity.
  - reflexivity.
  - reflexivity.
  - vm_compute. reflexivity.
Defined.

Lemma unreadable_prompt_is_answered_witness :
  let rt := Sample.runtime Sample.no_batch (inr Sample.hello_stream) in
  let options := Sample2.prompt_options (js "nope.txt") in
  LLM_fetch rt [message "user" (js "hi")] options Sample.fresh
  = (Ret ({| text := js "Error:"
                     ++ engine_message rt (FsError (js "nope.txt"));
             tokens := 0 |}, [message "user" (js "hi")]),
     {| log := log Sample.fresh;
        trace := trace Sample.fresh ++ [Diagnostic] |}).
Proof.
  apply (@unreadable_prompt_is_answered
           (Sample.runtime Sample.no_batch (inr Sample.hello_stream))
           [message "user" (js "hi")] (Sample2.prompt_options (js "nope.txt"))
           (js "nope.txt") Sample.fresh).
  - reflexivity.
  - reflexivity.
  - reflexivity.
Defined.

Lemma answer_is_lost_on_unusable_log_witness :
  let rt := Sample.runtime (inr Sample2.answer) Sample.no_stream in
  let w := Sample2.with_log Garbled in
  (fst (fetch rt Sample2.plain_options (js "hi") true w) = Throw SyntaxError \/
   fst (fetch rt Sample2.plain_options (js "hi") true w) = Throw TypeError) /\
  log (snd (fetch rt Sample2.plain_options (js "hi") true w)) = log w.
Proof.
  apply (@answer_is_lost_on_unusable_log
           (Sample.runtime (inr Sample2.answer) Sample.no_stream)
           Sample2.plain_options (js "hi") true (Sample2.with_log Garbled)
           (snd (LLM_fetch
                   (Sample.runtime (inr Sample2.answer) Sample.no_stream)
                   [message "user" (js "hi")] Sample2.plain_options
                   (Sample2.with_log Garbled)))
           [message "user" (js "hi")]
           ({| text := js " Hi there. "; tokens := 42 |},
            [message "user" (js "hi")])).
  - reflexivity.
  - reflexivity.
  - reflexivity.
Defined.

Lemma stream_without_end_signal_is_pending_witness :
  let rt := Sample.runtime Sample.no_batch (inr Sample2.broken_stream) in
  fst (fetch rt (Sample.options true) (js "hi") false Sample.fresh) = Pending /\
  log (snd (fetch rt (Sample.options true) (js "hi") false Sample.fresh))
  = log Sample.fresh.
Proof.
  apply (@stream_without_end_signal_is_pending
           (Sample.runtime Sample.no_batch (inr Sample2.broken_stream))
           (Sample.options true) (js "hi") false Sample.fresh
           [message "user" (js "hi")] [message "user" (js "hi")]
           Sample2.broken_stream).
  - reflexivity.
  - reflexivity.
  - reflexivity.
  - reflexivity.
  - vm_compute. reflexivity.
Defined.

(** ** The data handler of the stream *)

Section Handler.

Variable rt : Runtime.
Variable res_usage : option Z.

Local Abbreviation lines_from := (on_lines rt res_usage).

(** What was written so far plays no part in what the handler builds. *)
Lemma on_lines_same_result (lines : list jsstring) (a b : stream_state) :
  same_result a b -> same_result (lines_from lines a) (lines_from lines b).
Proof.
  revert a b. induction lines as [|l lines IH]; intros a b H; [exact H|].
  destruct H as (Hr & Hf & Hres). simpl.
  destruct (str_eqb (replace_data_prefix l) (js "[DONE]")).
  - unfold same_result. simpl. rewrite Hr, Hf, Hres. auto.
  - destruct (delta_content rt (replace_data_prefix l)) as [content| |];
      try (apply IH; unfold same_result; simpl; auto).
    destruct (truthy content); [|apply IH; unfold same_result; auto].
    destruct content as [[| | |text| |]|];
      try (apply IH; unfold same_result; simpl; auto).
    rewrite Hf.
    destruct (first b && match_all (Star (Cls is_space)) text);
      apply IH; unfold same_result; simpl; rewrite ?Hr; auto.
Qed.

Lemma same_result_refl (a : stream_state) : same_result a a.
Proof. unfold same_result. auto. Qed.

(** X16. A line of the stream whose payload cannot be parsed, or lacks the
    path [choices[0].delta], is skipped: apart from the diagnostic it
    prints, the handler ends as if the line had not been there. *)
Theorem unusable_line_is_skipped (before after : list jsstring)
    (line : jsstring) (e : js_error) (st : stream_state) :
  is_done line = false ->
  delta_content rt (replace_data_prefix line) = Throw e ->
  same_result (lines_from (before ++ line :: after) st)
    (lines_from (before ++ after) st).
Proof.
  intros Hd He. revert st.
  induction before as [|l before IH]; intros st.
  - simpl. unfold is_done in Hd. rewrite Hd, He.
    apply on_lines_same_result. unfold same_result. simpl. auto.
  - simpl. destruct (str_eqb (replace_data_prefix l) (js "[DONE]"));
      [apply same_result_refl|].
    destruct (delta_content rt (replace_data_prefix l)) as [content| |];
      try apply IH.
    destruct (truthy content); [|apply IH].
    destruct content as [[| | |text| |]|]; try apply IH.
    destruct (first st && match_all (Star (Cls is_space)) text); apply IH.
Qed.

Lemma on_lines_keeps_resolved (lines : list jsstring) (st : stream_state)
    (r : GptResult) :
  resolved st = Some r -> resolved (lines_from lines st) = Some r.
Proof.
  revert st. induction lines as [|l lines IH]; intros st H; [exact H|].
  simpl. destruct (str_eqb (replace_data_prefix l) (js "[DONE]")).
  - simpl. rewrite H. reflexivity.
  - destruct (delta_content rt (replace_data_prefix l)) as [content| |];
      try (apply IH; exact H).
    destruct (truthy content); [|apply IH; exact H].
    destruct content as [[| | |text| |]|]; try (apply IH; exact H).
    destruct (first st && match_all (Star (Cls is_space)) text);
      apply IH; exact H.
Qed.

Lemma fold_keeps_resolved (cs : list jsstring) (st : stream_state)
    (r : GptResult) :
  resolved st = Some r ->
  resolved (fold_left (on_data rt res_usage) cs st) = Some r.
Proof.
  revert st. induction cs as [|c cs IH]; intros st H; [exact H|].
  simpl. apply IH. unfold on_data. apply on_lines_keeps_resolved. exact H.
Qed.

(** Before the end-of-stream signal, what is written to standard output is
    what is added to the response. *)
Lemma on_lines_echo (lines : list jsstring) (st : stream_state) :
  forallb (fun l => negb (is_done l)) lines = true ->
  exists added,
    response (lines_from lines st) = response st ++ added /\
    echoed (written (lines_from lines st)) = echoed (written st) ++ added.
Proof.
  revert st. induction lines as [|l lines IH]; intros st H.
  - exists []. simpl. rewrite !app_nil_r. auto.
  - simpl in H. apply andb_true_iff in H as [Hl H].
    apply negb_true_iff in Hl. unfold is_done in Hl. simpl. rewrite Hl.
    assert (D : forall st', response st' = response st ->
                echoed (written st') = echoed (written st) ->
                exists added,
                  response (lines_from lines st') = response st ++ added /\
                  echoed (written (lines_from lines st'))
                  = echoed (written st) ++ added).
    { intros st' E1 E2. destruct (IH st' H) as (added & A1 & A2).
      exists added. rewrite A1, A2, E1, E2. auto. }
    assert (W : echoed (written (write st Diagnostic)) = echoed (written st)).
    { unfold echoed. simpl. rewrite flat_map_app. simpl.
      apply app_nil_r. }
    destruct (delta_content rt (replace_data_prefix l)) as [content| |];
      try (apply D; [reflexivity | exact W]).
    destruct (truthy content); [|apply D; reflexivity].
    destruct content as [[| | |text| |]|];
      try (apply D; [reflexivity | exact W]).
    destruct (first st && match_all (Star (Cls is_space)) text).
    + apply D; reflexivity.
    + match goal with |- context [lines_from lines ?s] =>
        destruct (IH s H) as (added & A1 & A2) end.
      exists (collapse_newlines text ++ added). rewrite A1, A2.
      unfold echoed. simpl. rewrite flat_map_app. simpl.
      rewrite app_nil_r, <- !app_assoc. auto.
Qed.

End Handler.

Section StreamRuns.

Variable rt : Runtime.

(** X17. The first end-of-stream signal fixes the result: whatever chunks
    arrive after it, and whether or not the transport fails in the end, the
    value the promise was resolved with stays. *)
Theorem result_is_fixed_at_end_signal (u : option Z)
    (cs more : list jsstring) (f f' : option js_error) (r : GptResult) :
  resolved (run_stream rt {| stream_usage := u; chunks := cs; failure := f |})
  = Some r ->
  resolved (run_stream rt {| stream_usage := u; chunks := cs ++ more;
                             failure := f' |})
  = Some r.
Proof.
  unfold run_stream. simpl. intros H. rewrite fold_left_app.
  apply fold_keeps_resolved. exact H.
Qed.

(** X18. How the lines of a stream are cut into chunks plays no part: two
    streams with the same lines, the end-of-stream signal being the last
    one, leave the handler in the same state. *)
Theorem chunking_does_not_matter (u : option Z) (cs1 cs2 pre : list jsstring)
    (l : jsstring) (f1 f2 : option js_error) :
  flat_map kept_lines cs1 = pre ++ [l] ->
  flat_map kept_lines cs2 = pre ++ [l] ->
  forallb (fun l => negb (is_done l)) pre = true ->
  run_stream rt {| stream_usage := u; chunks := cs1; failure := f1 |}
  = run_stream rt {| stream_usage := u; chunks := cs2; failure := f2 |}.
Proof.
  intros H1 H2 Hp. unfold run_stream. simpl.
  rewrite (@fold_on_data_lines rt u cs1 pre l stream_start H1 Hp).
  rewrite (@fold_on_data_lines rt u cs2 pre l stream_start H2 Hp).
  reflexivity.
Qed.

(** X19. What a stream that ends with the end-of-stream signal has written
    to standard output is the text of its result, followed by the newline
    written at the signal: the user has seen exactly what is returned. *)
Theorem echo_is_the_result (res : event_stream) (pre : list jsstring)
    (done : jsstring) :
  flat_map kept_lines (chunks res) = pre ++ [done] ->
  forallb (fun l => negb (is_done l)) pre = true ->
  is_done done = true ->
  exists r,
    resolved (run_stream rt res) = Some r /\
    echoed (written (run_stream rt res)) = text r ++ [LF].
Proof.
  intros Hl Hp Hd. unfold run_stream.
  rewrite (@fold_on_data_lines rt (stream_usage res) (chunks res) pre done
             stream_start Hl Hp).
  rewrite on_lines_app by exact Hp.
  destruct (on_lines_echo rt (stream_usage res) pre stream_start Hp)
    as (added & A1 & A2).
  pose proof (@on_lines_unresolved rt (stream_usage res) pre stream_start Hp
                eq_refl) as Hn.
  simpl. unfold is_done in Hd. rewrite Hd. simpl. rewrite Hn.
  eexists. split; [reflexivity|]. simpl.
  unfold echoed in *. rewrite flat_map_app. simpl.
  rewrite A2, A1. reflexivity.
Qed.

End StreamRuns.

Lemma unusable_line_is_skipped_witness :
  let rt := Sample.runtime Sample.no_batch Sample.no_stream in
  same_result
    (on_lines rt None
       ([js "data: " ++ Sample.delta_payload (js "Hel")]
        ++ js "data: {oops"
           :: [js "data: " ++ Sample.delta_payload (js "lo");
               js "data: [DONE]"])
       stream_start)
    (on_lines rt None
       ([js "data: " ++ Sample.delta_payload (js "Hel")]
        ++ [js "data: " ++ Sample.delta_payload (js "lo"); js "data: [DONE]"])
       stream_start).
Proof.
  apply (@unusable_line_is_skipped
           (Sample.runtime Sample.no_batch Sample.no_stream) None
           [js "data: " ++ Sample.delta_payload (js "Hel")]
           [js "data: " ++ Sample.delta_payload (js "lo"); js "data: [DONE]"]
           (js "data: {oops") SyntaxError stream_start).
  - vm_compute. reflexivity.
  - vm_compute. reflexivity.
Defined.

Lemma result_is_fixed_at_end_signal_witness :
  let rt := Sample.runtime Sample.no_batch Sample.no_stream in
  resolved
    (run_stream rt
       {| stream_usage := None;
          chunks := chunks Sample.hello_stream
                    ++ [Sample.sse (Sample.delta_payload (js "lo"))];
          failure := failure Sample2.reset_stream |})
  = Some {| text := js "Hello"; tokens := 0 |}.
Proof.
  apply (@result_is_fixed_at_end_signal
           (Sample.runtime Sample.no_batch Sample.no_stream) None
           (chunks Sample.hello_stream)
           [Sample.sse (Sample.delta_payload (js "lo"))]
           None (failure Sample2.reset_stream)
           {| text := js "Hello"; tokens := 0 |}).
  vm_compute. reflexivity.
Defined.

Lemma chunking_does_not_matter_witness :
  let rt := Sample.runtime Sample.no_batch Sample.no_stream in
  run_stream rt
    {| stream_usage := None; chunks := chunks Sample.hello_stream;
       failure := None |}
  = run_stream rt
      {| stream_usage := None;
         chunks := [js "data: " ++ Sample.delta_payload (js "Hel") ++ [LF]
                    ++ js "data: " ++ Sample.delta_payload (js "lo") ++ [LF]
                    ++ js "data: [DONE]"];
         failure := None |}.
Proof.
  apply (@chunking_does_not_matter
           (Sample.runtime Sample.no_batch Sample.no_stream) None
           (chunks Sample.hello_stream)
           [js "data: " ++ Sample.delta_payload (js "Hel") ++ [LF]
            ++ js "data: " ++ Sample.delta_payload (js "lo") ++ [LF]
            ++ js "data: [DONE]"]
           [js "data: " ++ Sample.delta_payload (js "Hel");
            js "data: " ++ Sample.delta_payload (js "lo")]
           (js "data: [DONE]") None None).
  - vm_compute. reflexivity.
  - vm_compute. reflexivity.
  - vm_compute. reflexivity.
Defined.

Lemma echo_is_the_result_witness :
  let rt := Sample.runtime Sample.no_batch Sample.no_stream in
  exists r,
    resolved (run_stream rt Sample.hello_stream) = Some r /\
    echoed (written (run_stream rt Sample.hello_stream)) = text r ++ [LF].
Proof.
  apply (@echo_is_the_result
           (Sample.runtime Sample.no_batch Sample.no_stream)
           Sample.hello_stream
           [js "data: " ++ Sample.delta_payload (js "Hel");
            js "data: " ++ Sample.delta_payload (js "lo")]
           (js "data: [DONE]")).
  - vm_compute. reflexivity.
  - vm_compute. reflexivity.
  - vm_compute. reflexivity.
Defined.

(** ** What a run adds to the world *)

Section Effects.

Variable Q : event -> bool.

Lemma adds_same_world (A : Type) (m : M A) :
  (forall w, snd (m w) = w) -> adds Q m.
Proof. intros H w. exists []. rewrite H, app_nil_r. auto. Qed.

Lemma adds_ret (A : Type) (a : A) : adds Q (ret a).
Proof. apply adds_same_world. reflexivity. Qed.

Lemma adds_throw (A : Type) (e : js_error) : adds Q (@throw A e).
Proof. apply adds_same_world. reflexivity. Qed.

Lemma adds_lift (A : Type) (o : outcome A) : adds Q (lift o).
Proof. apply adds_same_world. reflexivity. Qed.

Lemma adds_read_log : adds Q read_log.
Proof. apply adds_same_world. reflexivity. Qed.

Lemma adds_emit (e : event) : Q e = true -> adds Q (emit e).
Proof. intros H w. exists [e]. simpl. rewrite H. auto. Qed.

Lemma adds_emits (es : list event) : forallb Q es = true -> adds Q (emits es).
Proof. intros H w. exists es. auto. Qed.

Lemma adds_write_log (v : json) : Q (LogWrite v) = true -> adds Q (write_log v).
Proof. intros H w. exists [LogWrite v]. simpl. rewrite H. auto. Qed.

Lemma adds_bind (A B : Type) (c : M A) (k : A -> M B) :
  adds Q c -> (forall a, adds Q (k a)) -> adds Q (bind c k).
Proof.
  intros Hc Hk w. unfold bind. destruct (Hc w) as (e1 & E1 & F1).
  destruct (c w) as [[a| |] w1]; simpl in *.
  - destruct (Hk a w1) as (e2 & E2 & F2). exists (e1 ++ e2).
    rewrite E2, E1, app_assoc, forallb_app, F1, F2. auto.
  - exists e1. auto.
  - exists e1. auto.
Qed.

Lemma adds_when (b : bool) (c : M unit) :
  (b = true -> adds Q c) -> adds Q (when b c).
Proof. destruct b; simpl; intros H; [auto | apply adds_ret]. Qed.

Variable rt : Runtime.

Hypothesis Q_diagnostic : Q Diagnostic = true.
Hypothesis Q_error : forall t, Q (ConsoleError t) = true.
Hypothesis Q_write : forall v, Q (LogWrite v) = true.
Hypothesis Q_saved : forall r d b, Q (Saved r d b) = true.
Hypothesis Q_spawn : forall c a, Q (Spawn c a) = true.

Lemma adds_appendToLog (j : json) : adds Q (appendToLog rt j).
Proof.
  unfold appendToLog.
  apply adds_bind; [apply adds_read_log | intros f].
  apply adds_bind.
  { destruct f; try apply adds_ret. apply adds_write_log, Q_write. }
  intros _. apply adds_bind; [apply adds_read_log | intros f'].
  apply adds_bind; [apply adds_lift | intros logArray].
  apply adds_bind; [apply adds_lift | intros items].
  apply adds_write_log, Q_write.
Qed.

Lemma adds_opening (options : Options) (request : jsstring) :
  adds Q (opening rt options request).
Proof. apply adds_same_world. apply opening_world. Qed.

Lemma adds_closing (options : Options) (request : jsstring)
    (useSpinner : bool) (r : GptResult * list json) :
  (negb (stream options) && useSpinner = true ->
   forall t, Q (ConsoleLog t) = true) ->
  (stats options = true -> forall u d b, Q (Stats u d b) = true) ->
  adds Q (closing rt options request useSpinner r).
Proof.
  intros Hc Hst. unfold closing.
  apply adds_bind.
  { apply adds_when. intros Hb. apply adds_emit. apply Hc. exact Hb. }
  intros _. apply adds_bind.
  { apply adds_when. intros Hb. apply adds_emit. apply Hst. exact Hb. }
  intros _. apply adds_bind; [apply adds_appendToLog | intros _].
  apply adds_ret.
Qed.

Lemma written_on_lines (u : option Z) (lines : list jsstring)
    (st : stream_state) :
  (forall t, Q (StdoutWrite t) = true) ->
  forallb Q (written st) = true ->
  forallb Q (written (on_lines rt u lines st)) = true.
Proof.
  intros Hs. revert st. induction lines as [|l lines IH]; intros st H;
    [exact H|].
  assert (W : forall e, Q e = true -> forallb Q (written st ++ [e]) = true).
  { intros e He. rewrite forallb_app, H. simpl. rewrite He. reflexivity. }
  simpl. destruct (str_eqb (replace_data_prefix l) (js "[DONE]")).
  - simpl. apply W, Hs.
  - destruct (delta_content rt (replace_data_prefix l)) as [content| |];
      try (apply IH; simpl; auto).
    destruct (truthy content); [|apply IH; exact H].
    destruct content as [[| | |text| |]|]; try (apply IH; simpl; auto).
    destruct (first st && match_all (Star (Cls is_space)) text);
      apply IH; simpl; auto.
Qed.

Lemma written_run_stream (res : event_stream) :
  (forall t, Q (StdoutWrite t) = true) ->
  forallb Q (written (run_stream rt res)) = true.
Proof.
  intros Hs. unfold run_stream.
  assert (G : forall cs st, forallb Q (written st) = true ->
             forallb Q (written (fold_left (on_data rt (stream_usage res))
                                   cs st)) = true).
  { induction cs as [|c cs IH]; intros st H; [exact H|].
    simpl. apply IH. unfold on_data. apply written_on_lines; assumption. }
  apply G. reflexivity.
Qed.

Lemma adds_LLM_fetch (queries : list json) (options : Options) :
  (forall r, Q (ApiCall r) = true) ->
  (stream options = true -> forall t, Q (StdoutWrite t) = true) ->
  adds Q (LLM_fetch rt queries options).
Proof.
  intros Ha Hs. unfold LLM_fetch. destruct (stream options).
  - specialize (Hs eq_refl). unfold streamResponse.
    destruct (with_prompt rt queries options) as [e|sent].
    + apply adds_bind; [apply adds_emit, Q_diagnostic | intros _].
      apply adds_ret.
    + apply adds_bind; [apply adds_emit, Ha | intros _].
      destruct (createChatCompletionStream rt _) as [e|res].
      * apply adds_bind; [apply adds_emit, Q_diagnostic | intros _].
        apply adds_ret.
      * apply adds_bind.
        { apply adds_emits. apply written_run_stream. exact Hs. }
        intros _. destruct (resolved (run_stream rt res));
          [apply adds_ret | apply adds_lift].
  - apply adds_bind; [|intros; apply adds_ret].
    assert (C : forall e, adds Q (catch_batch rt e)).
    { intros e. unfold catch_batch. apply adds_bind; [|intros; apply adds_ret].
      destruct (has_response e).
      - apply adds_bind; [|intros _]; apply adds_emit, Q_diagnostic.
      - apply adds_emit, Q_error. }
    unfold fetch_batch. apply adds_bind; [apply adds_emit, Ha | intros _].
    destruct (createChatCompletion rt _) as [e|response]; [apply C|].
    destruct (get_field (hd_error queries) (js "content"));
      [apply adds_ret | apply C | apply adds_ret].
Qed.

Lemma adds_fetch (options : Options) (request : jsstring)
    (useSpinner : bool) :
  (forall r, Q (ApiCall r) = true) ->
  (stream options = true -> forall t, Q (StdoutWrite t) = true) ->
  (negb (stream options) && useSpinner = true ->
   forall t, Q (ConsoleLog t) = true) ->
  (stats options = true -> forall u d b, Q (Stats u d b) = true) ->
  adds Q (fetch rt options request useSpinner).
Proof.
  intros Ha Hs Hc Hst. unfold fetch.
  apply adds_bind; [apply adds_opening | intros messages].
  apply adds_bind; [apply adds_LLM_fetch; assumption | intros r].
  apply adds_closing; assumption.
Qed.

(** What [submit] does after [fetch]. *)
Lemma adds_handoff (type : jsstring) (options : Options)
    (diffFiles : list jsstring) (response : jsstring) :
  adds Q
    (if str_eqb type (js "input") || save options then
       let diffFile :=
         match given (diff options), diffFiles with
         | None, d :: _ => Some d
         | _, _ => diff options
         end in
       let newFile := saveFiles rt response diffFile (save options) in
       emit (Saved response diffFile (save options)) ;;;
       match given diffFile, given newFile with
       | Some d, Some n => emit (Spawn (DIFF_COMMAND rt) [n; d])
       | _, _ => ret tt
       end
     else ret tt).
Proof.
  destruct (str_eqb type (js "input") || save options); [|apply adds_ret].
  cbv zeta. apply adds_bind; [apply adds_emit, Q_saved | intros _].
  destruct (given _); [|apply adds_ret].
  destruct (given _); [|apply adds_ret].
  apply adds_emit, Q_spawn.
Qed.

Lemma adds_submit (type : jsstring) (options : Options) (useSpinner : bool)
    (request : jsstring) :
  (forall r, Q (ApiCall r) = true) ->
  (stream options = true -> forall t, Q (StdoutWrite t) = true) ->
  (negb (stream options) && useSpinner = true ->
   forall t, Q (ConsoleLog t) = true) ->
  (stats options = true -> forall u d b, Q (Stats u d b) = true) ->
  (dryrun options = true -> forall t, Q (ConsoleLog t) = true) ->
  (dryrun options = true -> forall n, Q (Estimate n) = true) ->
  adds Q (submit rt type options useSpinner request).
Proof.
  intros Ha Hs Hc Hst Hd He. unfold submit.
  destruct (importFiles (normalizePath rt) (readFileSync rt) (max_arguments rt) request)
    as [[success text] diffFiles].
  destruct success; simpl.
  - destruct (dryrun options).
    + apply adds_bind; [apply adds_emit, Hd; reflexivity | intros _].
      apply adds_emit, He. reflexivity.
    + apply adds_bind; [apply adds_fetch; assumption | intros response].
      apply adds_handoff.
  - apply adds_emit, Q_error.
Qed.

Lemma adds_read_request (type : jsstring) (args : list jsstring) :
  adds Q (read_request rt type args).
Proof.
  unfold read_request. destruct (str_eqb type (js "input"));
    [|apply adds_ret].
  destruct args as [|a0 [|file args]].
  - apply adds_bind; [apply adds_emit, Q_error | intros; apply adds_ret].
  - apply adds_bind; [apply adds_emit, Q_error | intros; apply adds_ret].
  - destruct (readFileSync rt file); [apply adds_ret | apply adds_throw].
Qed.

Lemma adds_submitChat (type : jsstring) (args : list jsstring)
    (options : Options) (useSpinner : bool) :
  (forall r, Q (ApiCall r) = true) ->
  (stream options = true -> forall t, Q (StdoutWrite t) = true) ->
  (negb (stream options) && (if isatty rt then useSpinner else false) = true ->
   forall t, Q (ConsoleLog t) = true) ->
  (stats options = true -> forall u d b, Q (Stats u d b) = true) ->
  (dryrun options = true -> forall t, Q (ConsoleLog t) = true) ->
  (dryrun options = true -> forall n, Q (Estimate n) = true) ->
  adds Q (submitChat rt type args options useSpinner).
Proof.
  intros Ha Hs Hc Hst Hd He. unfold submitChat.
  apply adds_bind; [apply adds_read_request | intros [request|]].
  - apply adds_submit; assumption.
  - apply adds_ret.
Qed.

End Effects.

Section Calls.

Variable rt : Runtime.

Local Abbreviation no_call := (fun e => negb (is_api_call e)).

Lemma api_calls_app (a b : list event) :
  api_calls (a ++ b) = api_calls a + api_calls b.
Proof. unfold api_calls. rewrite filter_app, length_app. reflexivity. Qed.

Lemma api_calls_none (evs : list event) :
  forallb no_call evs = true -> api_calls evs = 0.
Proof.
  unfold api_calls. induction evs as [|e evs IH]; [reflexivity|].
  simpl. intros H. apply andb_true_iff in H as [He H].
  apply negb_true_iff in He. rewrite He. auto.
Qed.

Lemma calls_of_adds (A : Type) (m : M A) :
  adds no_call m -> calls_at_most 0 m.
Proof.
  intros H w. destruct (H w) as (evs & E & F). exists evs.
  rewrite (api_calls_none evs F). auto.
Qed.

Lemma calls_weaken (A : Type) (m : M A) (n n' : nat) :
  n <= n' -> calls_at_most n m -> calls_at_most n' m.
Proof.
  intros Hn H w. destruct (H w) as (evs & E & F). exists evs.
  split; [exact E | lia].
Qed.

Lemma calls_bind (A B : Type) (c : M A) (k : A -> M B) (a b : nat) :
  calls_at_most a c -> (forall x, calls_at_most b (k x)) ->
  calls_at_most (a + b) (bind c k).
Proof.
  intros Hc Hk w. unfold bind. destruct (Hc w) as (e1 & E1 & F1).
  destruct (c w) as [[x| |] w1]; simpl in *.
  - destruct (Hk x w1) as (e2 & E2 & F2). exists (e1 ++ e2).
    rewrite E2, E1, app_assoc, api_calls_app. split; [reflexivity | lia].
  - exists e1. split; [exact E1 | lia].
  - exists e1. split; [exact E1 | lia].
Qed.

Lemma calls_LLM_fetch (queries : list json) (options : Options) :
  calls_at_most 1 (LLM_fetch rt queries options).
Proof.
  assert (One : forall r, calls_at_most 1 (emit (ApiCall r))).
  { intros r w. exists [ApiCall r]. split; [reflexivity|].
    unfold api_calls. simpl. lia. }
  assert (D : calls_at_most 0 (emit Diagnostic)).
  { apply calls_of_adds, adds_emit. reflexivity. }
  assert (R : forall (A : Type) (a : A), calls_at_most 0 (ret a)).
  { intros A a. apply calls_of_adds, adds_ret. }
  unfold LLM_fetch. destruct (stream options).
  - unfold streamResponse.
    destruct (with_prompt rt queries options) as [e|sent].
    + apply (@calls_weaken _ _ (0 + 0)); [lia|].
      apply calls_bind; [exact D | intros; apply R].
    + apply (@calls_bind _ _ _ _ 1 0); [apply One | intros _].
      destruct (createChatCompletionStream rt _) as [e|res].
      * apply (@calls_bind _ _ _ _ 0 0); [exact D | intros; apply R].
      * apply (@calls_bind _ _ _ _ 0 0).
        { apply calls_of_adds, adds_emits.
          apply written_run_stream; reflexivity. }
        intros _. destruct (resolved (run_stream rt res)); [apply R|].
        apply calls_of_adds, adds_lift.
  - apply (@calls_bind _ _ _ _ 1 0); [|intros; apply R].
    assert (C : forall e, calls_at_most 0 (catch_batch rt e)).
    { intros e. unfold catch_batch.
      apply (@calls_bind _ _ _ _ 0 0); [|intros; apply R].
      destruct (has_response e).
      - apply (@calls_bind _ _ _ _ 0 0); [exact D | intros; exact D].
      - apply calls_of_adds, adds_emit. reflexivity. }
    unfold fetch_batch.
    apply (@calls_bind _ _ _ _ 1 0); [apply One | intros _].
    destruct (createChatCompletion rt _) as [e|response]; [apply C|].
    destruct (get_field (hd_error queries) (js "content"));
      [apply R | apply C | apply R].
Qed.

Lemma calls_fetch (options : Options) (request : jsstring)
    (useSpinner : bool) :
  calls_at_most 1 (fetch rt options request useSpinner).
Proof.
  unfold fetch. apply (@calls_bind _ _ _ _ 0 1).
  { apply calls_of_adds, adds_opening. }
  intros messages. apply (@calls_bind _ _ _ _ 1 0); [apply calls_LLM_fetch|].
  intros r. apply calls_of_adds.
  apply adds_closing; intros; reflexivity.
Qed.

(** X21. One run of [submitChat] calls the backend at most once, whatever
    the command, the options, the files and the log are. *)
Theorem at_most_one_backend_call (type : jsstring) (args : list jsstring)
    (options : Options) (useSpinner : bool) (w : world) :
  exists evs,
    trace (snd (submitChat rt type args options useSpinner w)) = trace w ++ evs /\
    api_calls evs <= 1.
Proof.
  revert w. change (calls_at_most 1 (submitChat rt type args options useSpinner)).
  unfold submitChat. apply (@calls_bind _ _ _ _ 0 1).
  { apply calls_of_adds, adds_read_request; intros; reflexivity. }
  intros [request|]; [|apply (@calls_weaken _ _ 0); [lia|];
                       apply calls_of_adds, adds_ret].
  unfold submit.
  destruct (importFiles (normalizePath rt) (readFileSync rt) (max_arguments rt) request)
    as [[success text] diffFiles].
  destruct success; simpl.
  - destruct (dryrun options).
    + apply (@calls_weaken _ _ 0); [lia|]. apply calls_of_adds.
      apply adds_bind; [|intros _]; apply adds_emit; reflexivity.
    + apply (@calls_bind _ _ _ _ 1 0); [apply calls_fetch | intros response].
      apply calls_of_adds. apply adds_handoff; intros; reflexivity.
  - apply (@calls_weaken _ _ 0); [lia|].
    apply calls_of_adds, adds_emit. reflexivity.
Qed.

(** X20. When standard output is no terminal, a batch run does not show
    the answer: the one thing it can print with [console.log] or write to
    standard output is the statistics line, which is printed whether or not
    the output is a terminal, and without the [stats] option it prints
    nothing there at all. *)
Theorem piped_batch_answer_is_not_shown (type : jsstring)
    (args : list jsstring) (options : Options) (useSpinner : bool)
    (w : world) :
  isatty rt = false -> stream options = false -> dryrun options = false ->
  exists evs,
    trace (snd (submitChat rt type args options useSpinner w)) = trace w ++ evs /\
    filter displays evs = filter is_stats evs /\
    (stats options = false -> filter displays evs = []).
Proof.
  intros Ht Hs Hd.
  pose (Q := fun e => negb (displays e) || (stats options && is_stats e)).
  assert (A : adds Q (submitChat rt type args options useSpinner)).
  { apply adds_submitChat; try (intros; reflexivity).
    - rewrite Hs. discriminate.
    - rewrite Ht, andb_false_r. discriminate.
    - intros Hst u d b. unfold Q. rewrite Hst. reflexivity.
    - rewrite Hd. discriminate.
    - rewrite Hd. discriminate. }
  destruct (A w) as (evs & E & F). exists evs. split; [exact E|].
  clear E. unfold Q in F. split.
  - induction evs as [|e evs IH]; [reflexivity|].
    simpl in F. apply andb_true_iff in F as [Fe F]. simpl.
    destruct e; simpl in *; rewrite ?IH by exact F; try reflexivity;
      rewrite ?andb_false_r in Fe; discriminate.
  - intros Hst. rewrite Hst in F.
    induction evs as [|e evs IH]; [reflexivity|].
    simpl in F. apply andb_true_iff in F as [Fe F]. simpl.
    rewrite orb_false_r in Fe. apply negb_true_iff in Fe. rewrite Fe.
    apply IH. exact F.
Qed.

End Calls.

Lemma piped_batch_answer_is_not_shown_witness :
  let rt := Sample2.piped (inr Sample2.answer) in
  exists evs,
    trace (snd (submitChat rt (js "ask") [js "ask"; js "hello"]
                  Sample2.stats_options true Sample.fresh))
    = trace Sample.fresh ++ evs /\
    filter displays evs = filter is_stats evs /\
    (stats Sample2.stats_options = false -> filter displays evs = []).
Proof.
  apply (@piped_batch_answer_is_not_shown
           (Sample2.piped (inr Sample2.answer)) (js "ask")
           [js "ask"; js "hello"] Sample2.stats_options true Sample.fresh).
  - reflexivity.
  - reflexivity.
  - reflexivity.
Defined.

Section LogGrowth.

Variable rt : Runtime.

Lemma closing_log_step (options : Options) (request : jsstring)
    (useSpinner : bool) (r : GptResult * list json) (w : world) :
  log_step w (snd (closing rt options request useSpinner r w)).
Proof.
  unfold closing, bind, when, emit, ret.
  destruct (negb (stream options) && useSpinner), (stats options);
    cbn [fst snd];
    match goal with |- context [appendToLog rt ?j ?w'] =>
      destruct (log_items (log w)) as [items|] eqn:El;
        [ right; exists items, j; split; [exact El|];
          rewrite (@appendToLog_spec rt j w' items El); reflexivity
        | left; destruct (@appendToLog_unusable rt j w' El) as [_ H2];
          destruct (appendToLog rt j w') as [[| |] w3]; simpl in H2; subst;
          reflexivity ]
    end.
Qed.

Lemma fetch_log_step (options : Options) (request : jsstring)
    (useSpinner : bool) (w : world) :
  log_step w (snd (fetch rt options request useSpinner w)).
Proof.
  unfold fetch, bind.
  pose proof (opening_world rt options request w) as Hw.
  destruct (opening rt options request w) as [[messages| |] w1];
    simpl in Hw; subst; try (left; reflexivity).
  pose proof (LLM_fetch_log rt messages options w) as Hl.
  destruct (LLM_fetch rt messages options w) as [[r| |] w2];
    simpl in Hl; try (left; exact Hl).
  destruct (closing_log_step options request useSpinner r w2)
    as [E | (items & j & E1 & E2)].
  - left. rewrite E. exact Hl.
  - right. exists items, j. rewrite <- Hl. auto.
Qed.

(** X22. A run of [submitChat] leaves the log as it is or adds one entry at
    the end of a log that is missing or holds an array: earlier entries are
    never changed, and a log file that is no JSON array is never
    overwritten. *)
Theorem log_only_grows_at_its_end (type : jsstring) (args : list jsstring)
    (options : Options) (useSpinner : bool) (w : world) :
  log_step w (snd (submitChat rt type args options useSpinner w)) /\
  (log_items (log w) = None ->
   log (snd (submitChat rt type args options useSpinner w)) = log w).
Proof.
  assert (S : log_step w (snd (submitChat rt type args options useSpinner w))).
  { unfold submitChat, bind.
    assert (Hr : log (snd (read_request rt type args w)) = log w).
    { unfold read_request. destruct (str_eqb type (js "input"));
        [|reflexivity].
      destruct args as [|a0 [|file args]]; try reflexivity.
      destruct (readFileSync rt file); reflexivity. }
    destruct (read_request rt type args w) as [[[request|]| |] w1];
      simpl in Hr; try (left; exact Hr).
    assert (G : log_step w1
                  (snd (submit rt type options
                          (if isatty rt then useSpinner else false)
                          request w1))).
    { unfold submit.
      destruct (importFiles (normalizePath rt) (readFileSync rt) (max_arguments rt) request)
        as [[success text] diffFiles].
      destruct success; simpl; [|left; reflexivity].
      destruct (dryrun options); [left; reflexivity|].
      unfold bind.
      pose proof (fetch_log_step options text
                    (if isatty rt then useSpinner else false) w1) as F.
      destruct (fetch rt options text
                  (if isatty rt then useSpinner else false) w1)
        as [[response| |] w2]; simpl in F; try exact F.
      assert (K : forall w2', log (snd (
                 (if str_eqb type (js "input") || save options then
                    emit (Saved response
                            match given (diff options), diffFiles with
                            | None, d :: _ => Some d
                            | _, _ => diff options
                            end (save options)) ;;;
                    match
                      given match given (diff options), diffFiles with
                            | None, d :: _ => Some d
                            | _, _ => diff options
                            end,
                      given (saveFiles rt response
                               match given (diff options), diffFiles with
                               | None, d :: _ => Some d
                               | _, _ => diff options
                               end (save options))
                    with
                    | Some d, Some n => emit (Spawn (DIFF_COMMAND rt) [n; d])
                    | _, _ => ret tt
                    end
                  else ret tt) w2')) = log w2').
      { intros w2'.
        destruct (str_eqb type (js "input") || save options); [|reflexivity].
        unfold bind, emit, ret. simpl.
        destruct (given _); [|reflexivity].
        destruct (given _); reflexivity. }
      destruct F as [E | (items & j & E1 & E2)].
      - left. rewrite K. exact E.
      - right. exists items, j. rewrite K. auto. }
    destruct G as [E | (items & j & E1 & E2)].
    - left. rewrite E. exact Hr.
    - right. exists items, j. rewrite <- Hr. auto. }
  split; [exact S|].
  intros Hn. destruct S as [E | (items & j & E1 & _)]; [exact E|].
  rewrite Hn in E1. discriminate.
Qed.

End LogGrowth.

(** ** From the command line to the backend *)

Section Requests.

Variable rt : Runtime.

Lemma LLM_fetch_batch_shape (queries : list json) (options : Options)
    (w : world) :
  stream options = false ->
  exists g evs,
    LLM_fetch rt queries options w
    = (Ret (g, queries),
       {| log := log w;
          trace := trace w ++ ApiCall (batch_request rt queries options) :: evs
       |}).
Proof.
  intros Hs. unfold LLM_fetch. rewrite Hs.
  unfold fetch_batch, catch_batch, bind, emit, ret. simpl.
  destruct (createChatCompletion rt (batch_request rt queries options))
    as [e|response]; simpl.
  - destruct (has_response e); simpl; eexists _, _;
      rewrite <- ?app_assoc; simpl; reflexivity.
  - destruct (get_field (hd_error queries) (js "content")) as [v|e|]; simpl.
    + eexists _, []. reflexivity.
    + destruct (has_response e); simpl; eexists _, _;
        rewrite <- ?app_assoc; simpl; reflexivity.
    + eexists _, []. reflexivity.
Qed.

Lemma read_request_some (type : jsstring) (args : list jsstring) (w : world)
    (request : jsstring) :
  fst (read_request rt type args w) = Ret (Some request) ->
  read_request rt type args w = (Ret (Some request), w).
Proof.
  unfold read_request. destruct (str_eqb type (js "input")).
  - destruct args as [|a0 [|file args]]; try discriminate.
    destruct (readFileSync rt file); [|discriminate].
    unfold ret. simpl. intros E. injection E as ->. reflexivity.
  - unfold ret. simpl. intros E. injection E as <-. reflexivity.
Qed.

Lemma opening_ends_with_request (options : Options) (request : jsstring)
    (w : world) (queries : list json) :
  fst (opening rt options request w) = Ret queries ->
  exists previous, queries = previous ++ [message "user" request].
Proof.
  unfold opening, bind. destruct (chat options).
  - destruct (getPrviousRequests rt w) as [[v| |] w1]; simpl;
      try discriminate.
    destruct v as [[| | | |items|]|]; simpl; try discriminate.
    intros E. injection E as <-. exists items. reflexivity.
  - simpl. intros E. injection E as <-. exists []. reflexivity.
Qed.

(** X23. In batch mode, what the run sends to the backend is the request
    after expansion: the first event a run adds, once the request is read
    and expanded, is the call whose message list ends with the user message
    holding the expanded text, after the messages replayed from the log, if
    any. *)
Theorem backend_receives_expanded_request (type : jsstring)
    (args : list jsstring) (options : Options) (useSpinner : bool)
    (w : world) (request text : jsstring) (diffFiles : list jsstring)
    (queries : list json) :
  fst (read_request rt type args w) = Ret (Some request) ->
  importFiles (normalizePath rt) (readFileSync rt) (max_arguments rt) request
  = (true, text, diffFiles) ->
  dryrun options = false ->
  stream options = false ->
  fst (opening rt options text w) = Ret queries ->
  (exists previous, queries = previous ++ [message "user" text]) /\
  exists evs,
    trace (snd (submitChat rt type args options useSpinner w))
    = trace w ++ ApiCall (batch_request rt queries options) :: evs.
Proof.
  intros Hr Hi Hd Hs Ho.
  split; [apply (opening_ends_with_request options text w Ho)|].
  unfold submitChat, bind. rewrite (read_request_some type args w Hr).
  unfold submit. rewrite Hi. cbv beta iota. cbn [negb]. rewrite Hd.
  unfold bind.
  set (spin := if isatty rt then useSpinner else false).
  destruct (LLM_fetch_batch_shape queries options w Hs) as (g & evs & Hf).
  destruct (@fetch_closing rt options text spin w _ queries (g, queries)
              Ho Hf) as [E _].
  rewrite E.
  destruct (@adds_closing (fun _ => true) rt (fun _ => eq_refl)
              options text spin (g, queries)
              (fun _ _ => eq_refl) (fun _ _ _ _ => eq_refl)
              {| log := log w;
                 trace := trace w
                          ++ ApiCall (batch_request rt queries options) :: evs
              |}) as (e2 & E2 & _).
  destruct (closing rt options text spin (g, queries) _)
    as [[response| |] w3]; simpl in E2.
  - destruct (@adds_handoff (fun _ => true) rt (fun _ _ _ => eq_refl)
                (fun _ _ => eq_refl) type options diffFiles response w3)
      as (e3 & E3 & _).
    exists (evs ++ e2 ++ e3). unfold bind in E3. rewrite E3, E2.
    rewrite <- !app_assoc. reflexivity.
  - exists (evs ++ e2). simpl. rewrite E2, <- app_assoc. reflexivity.
  - exists (evs ++ e2). simpl. rewrite E2, <- app_assoc. reflexivity.
Qed.

(** X24. The [input] command without a file name prints the usage error and
    returns; with a file that cannot be read it throws the error of the
    file system, uncaught.  In both cases nothing else happens. *)
Theorem input_needs_a_readable_file (args : list jsstring)
    (options : Options) (useSpinner : bool) (w : world) :
  (List.length args < 2 ->
   submitChat rt (js "input") args options useSpinner w
   = (Ret tt,
      {| log := log w;
         trace := trace w
                  ++ [ConsoleError (js "Need input file name in input command")]
      |})) /\
  (forall file,
     nth_error args 1 = Some file -> readFileSync rt file = None ->
     submitChat rt (js "input") args options useSpinner w
     = (Throw (FsError file), w)).
Proof.
  split.
  - intros H. destruct args as [|a0 [|file args]]; try reflexivity.
    simpl in H. lia.
  - intros file Hn Hr. destruct args as [|a0 [|file' args]];
      try discriminate.
    simpl in Hn. injection Hn as ->.
    unfold submitChat, read_request, bind. simpl. rewrite Hr. reflexivity.
Qed.

End Requests.

Lemma backend_receives_expanded_request_witness :
  let rt := Sample.runtime (inr Sample2.answer) Sample.no_stream in
  let queries := [message "user" (js "there")] in
  (exists previous, queries = previous ++ [message "user" (js "there")]) /\
  exists evs,
    trace (snd (submitChat rt (js "ask") [js "ask"; js "#import"; js "b.txt"]
                  Sample2.plain_options true Sample.fresh))
    = trace Sample.fresh
      ++ ApiCall (batch_request rt queries Sample2.plain_options) :: evs.
Proof.
  apply (@backend_receives_expanded_request
           (Sample.runtime (inr Sample2.answer) Sample.no_stream)
           (js "ask") [js "ask"; js "#import"; js "b.txt"]
           Sample2.plain_options true Sample.fresh (js "#import b.txt")
           (js "there") [] [message "user" (js "there")]).
  - vm_compute. reflexivity.
  - vm_compute. reflexivity.
  - reflexivity.
  - reflexivity.
  - reflexivity.
Defined.

(** ** Trimming *)

Section Trimming.

Lemma trimStart_start (s : jsstring) :
  trimStart s = [] \/
  exists c t, trimStart s = c :: t /\ is_space c = false.
Proof.
  induction s as [|c s IH]; [left; reflexivity|].
  simpl. destruct (is_space c) eqn:E; [exact IH|].
  right. exists c, s. auto.
Qed.

Lemma trimStart_fixed (s : jsstring) : trimStart (trimStart s) = trimStart s.
Proof.
  destruct (trimStart_start s) as [E | (c & t & E & Hc)]; rewrite E;
    [reflexivity|].
  simpl. rewrite Hc. reflexivity.
Qed.

Lemma trimStart_empty_iff (s : jsstring) :
  trimStart s = [] <-> forallb is_space s = true.
Proof.
  induction s as [|c s IH]; simpl; [tauto|].
  destruct (is_space c); simpl; [exact IH|].
  split; discriminate.
Qed.

Lemma forallb_rev (A : Type) (f : A -> bool) (l : list A) :
  forallb f (rev l) = forallb f l.
Proof.
  induction l as [|x l IH]; [reflexivity|].
  simpl. rewrite forallb_app, IH. simpl. rewrite andb_true_r.
  apply andb_comm.
Qed.

(** [trim] leaves no white space at either end. *)
Lemma trim_trimmed (s : jsstring) : trimmed (trim s).
Proof.
  unfold trimmed, trim.
  destruct (trimStart_start s) as [E | (c & t & E & Hc)]; rewrite E.
  - simpl. auto.
  - rewrite rev_involutive, trimStart_fixed. split; [|reflexivity].
    simpl rev. rewrite trimStart_app_stop by exact Hc.
    rewrite rev_app_distr. simpl. rewrite Hc. reflexivity.
Qed.

Lemma trim_of_trimmed (s : jsstring) : trimmed s -> trim s = s.
Proof.
  intros [H1 H2]. unfold trim. rewrite H1, H2. apply rev_involutive.
Qed.

End Trimming.

Section Answers.

Variable rt : Runtime.

Lemma closing_ret (options : Options) (request : jsstring)
    (useSpinner : bool) (r : GptResult * list json) (w : world)
    (x : jsstring) :
  fst (closing rt options request useSpinner r w) = Ret x ->
  x = trim (text (fst r)).
Proof.
  unfold closing, bind, when, emit, ret.
  destruct (negb (stream options) && useSpinner), (stats options);
    cbn [fst snd];
    match goal with |- context [appendToLog rt ?j ?w'] =>
      destruct (appendToLog rt j w') as [[[]| |] w3] end;
    simpl; intros E; try discriminate; injection E as <-; reflexivity.
Qed.

(** X25. Whatever [fetch] returns has no white space at either end: it is
    the text of the backend result, trimmed, and trimming it again changes
    nothing. *)
Theorem returned_answer_is_trimmed (options : Options) (request : jsstring)
    (useSpinner : bool) (w : world) (answer : jsstring) :
  fst (fetch rt options request useSpinner w) = Ret answer ->
  trimmed answer /\ trim answer = answer /\
  exists g ms,
    fst (LLM_fetch rt ms options w) = Ret g /\ answer = trim (text (fst g)).
Proof.
  unfold fetch, bind.
  pose proof (opening_world rt options request w) as Hw.
  destruct (opening rt options request w) as [[messages| |] w1];
    simpl in Hw; subst; simpl; try discriminate.
  destruct (LLM_fetch rt messages options w) as [[g| |] w2] eqn:Ef;
    simpl; try discriminate.
  intros E. apply closing_ret in E. subst answer.
  split; [apply trim_trimmed|].
  split; [apply trim_of_trimmed, trim_trimmed|].
  exists g, messages. rewrite Ef. auto.
Qed.

End Answers.

Lemma returned_answer_is_trimmed_witness :
  let rt := Sample.runtime (inr Sample2.answer) Sample.no_stream in
  trimmed (js "Hi there.") /\ trim (js "Hi there.") = js "Hi there." /\
  exists g ms,
    fst (LLM_fetch rt ms Sample2.plain_options Sample.fresh) = Ret g /\
    js "Hi there." = trim (text (fst g)).
Proof.
  apply (@returned_answer_is_trimmed
           (Sample.runtime (inr Sample2.answer) Sample.no_stream)
           Sample2.plain_options (js "hi") true Sample.fresh (js "Hi there.")).
  vm_compute. reflexivity.
Defined.

(** ** The API key *)

Section Key.

Import Startup.

Lemma given_some (o : option jsstring) (k : jsstring) :
  given o = Some k -> o = Some k /\ k <> [].
Proof.
  destruct o as [[|c s]|]; simpl; try discriminate.
  intros E. injection E as <-. split; [reflexivity | discriminate].
Qed.

Lemma given_none_some (k : jsstring) : given (Some k) = None <-> k = [].
Proof. destruct k; simpl; split; try discriminate; reflexivity. Qed.

Lemma given_given (o : option jsstring) : given (given o) = given o.
Proof. destruct o as [[|c s]|]; reflexivity. Qed.

Lemma trimEnd_empty_iff (s : jsstring) :
  trimEnd s = [] <-> forallb is_space s = true.
Proof.
  unfold trimEnd. rewrite <- (forallb_rev is_space s), <- trimStart_empty_iff.
  split; intros H.
  - apply (f_equal (@rev jschar)) in H. rewrite rev_involutive in H. exact H.
  - rewrite H. reflexivity.
Qed.

(** X26. The process stops at its start exactly when the environment
    variable gives no key (it is unset or empty) and the key file is
    missing, cannot be read, or holds white space only; a key in the
    variable is used as it is, and the file is then not looked at. *)
Theorem startup_stops_iff_no_key (env : Env) :
  (startup env = None <->
   given (OPENAI_API_KEY env) = None /\
   (existsSync env (key_file env) = false \/
    readFile env (key_file env) = None \/
    exists contents,
      readFile env (key_file env) = Some contents /\
      forallb is_space contents = true)) /\
  (forall key, given (OPENAI_API_KEY env) = Some key ->
               startup env = Some key).
Proof.
  unfold startup, API_KEY. split.
  - destruct (given (OPENAI_API_KEY env)) as [key|] eqn:Eg.
    + apply given_some in Eg as [_ Hk].
      destruct key; [congruence|]. simpl.
      split; [discriminate | intros [H _]; discriminate].
    + destruct (existsSync env (key_file env)); simpl.
      * destruct (readFile env (key_file env)) as [contents|].
        -- rewrite given_none_some, trimEnd_empty_iff. split.
           ++ intros H. split; [reflexivity|]. right; right.
              exists contents. auto.
           ++ intros [_ [H | [H | (c & E & H)]]]; try discriminate.
              injection E as <-. exact H.
        -- simpl. split; auto.
      * split; auto.
  - intros key Eg. rewrite Eg. apply given_some in Eg as [_ Hk].
    destruct key; [congruence | reflexivity].
Qed.

(** X27. A key that comes from the key file is the contents of the file
    without the white space at its end, a final newline in particular; it
    is not empty, and white space at its start is kept. *)
Theorem key_from_file_is_trimmed_at_end (env : Env) (key : jsstring) :
  given (OPENAI_API_KEY env) = None ->
  startup env = Some key ->
  exists contents,
    readFile env (key_file env) = Some contents /\
    key = trimEnd contents /\
    key <> [] /\
    trimStart (rev key) = rev key /\
    exists rest, contents = key ++ rest /\ forallb is_space rest = true.
Proof.
  unfold startup, API_KEY. intros Eg H. rewrite Eg in H.
  destruct (existsSync env (key_file env)); [|discriminate].
  destruct (readFile env (key_file env)) as [contents|]; [|discriminate].
  apply given_some in H as [E Hk]. injection E as E.
  exists contents. split; [reflexivity|]. split; [auto|].
  split; [exact Hk|]. subst key. unfold trimEnd. rewrite rev_involutive.
  split; [apply trimStart_fixed|].
  assert (G : forall s, exists ws, s = ws ++ trimStart s /\
                                   forallb is_space ws = true).
  { induction s as [|c s IH]; [exists []; auto|].
    simpl. destruct (is_space c) eqn:Ec.
    - destruct IH as (ws & E1 & E2). exists (c :: ws). simpl.
      rewrite Ec, E2, <- E1. auto.
    - exists []. auto. }
  destruct (G (rev contents)) as (ws & E1 & E2).
  exists (rev ws). split.
  - rewrite <- rev_app_distr, <- E1, rev_involutive. reflexivity.
  - rewrite forallb_rev. exact E2.
Qed.

End Key.

Lemma key_from_file_is_trimmed_at_end_witness :
  exists contents,
    Startup.readFile Sample2.key_in_file (Startup.key_file Sample2.key_in_file)
    = Some contents /\
    js "sk-123" = Startup.trimEnd contents /\
    js "sk-123" <> [] /\
    trimStart (rev (js "sk-123")) = rev (js "sk-123") /\
    exists rest, contents = js "sk-123" ++ rest /\
                 forallb is_space rest = true.
Proof.
  apply (@key_from_file_is_trimmed_at_end Sample2.key_in_file (js "sk-123"));
    vm_compute; reflexivity.
Defined.

(** ** Token counts and the first version of LLM.fetch *)

Section Usage.

Variable rt : Runtime.

(** X28. A token count the backend result carries, other than 0, is logged
    as it is: the estimate takes the place of 0 only. *)
Theorem reported_usage_is_logged (options : Options) (request : jsstring)
    (useSpinner : bool) (w w2 : world) (queries ms items : list json)
    (g : GptResult) :
  fst (opening rt options request w) = Ret queries ->
  LLM_fetch rt queries options w = (Ret (g, ms), w2) ->
  log_items (log w) = Some items ->
  tokens g <> 0%Z ->
  last_logged_tokens (snd (fetch rt options request useSpinner w))
  = Some (JNum (inject_Z (tokens g))).
Proof.
  intros Ho Hf Hl Ht.
  destruct (@fetch_spec rt options request useSpinner w w2 queries ms items g
              Ho Hf Hl) as [E Hl2].
  rewrite E, (@closing_spec rt options request useSpinner g ms w2 items Hl2).
  simpl snd. rewrite last_logged_tokens_entry. simpl.
  unfold counted_tokens. apply Z.eqb_neq in Ht. rewrite Ht. reflexivity.
Qed.

(** X29. The first version of [LLM.fetch] and the batch path of the present
    one send the same request for one user message, when the default model
    is gpt-3.5-turbo and no model is asked for.  Where the first version
    returns the completion, the present one returns the content of its
    first choice (the empty text without choices) and its usage total (0
    without usage); where the first version returns [undefined], the
    present one returns the [Error:] text. *)
Theorem first_version_agrees_with_batch_fetch (query : jsstring)
    (options : Options) (w : world) :
  DEFAULT_MODEL rt = js "gpt-3.5-turbo" ->
  given (model options) = None ->
  stream options = false ->
  batch_request rt [message "user" query] options = Legacy.request query /\
  match createChatCompletion rt (Legacy.request query) with
  | inr response =>
      fst (Legacy.fetch rt query) = Some response /\
      fst (LLM_fetch rt [message "user" query] options w)
      = Ret ({| text := hd [] (choices response);
                tokens := usage_or_0 (usage response) |},
             [message "user" query])
  | inl e =>
      fst (Legacy.fetch rt query) = None /\
      fst (LLM_fetch rt [message "user" query] options w)
      = Ret (error_result rt e, [message "user" query])
  end.
Proof.
  intros Hd Hm Hs.
  assert (R : batch_request rt [message "user" query] options
              = Legacy.request query).
  { unfold batch_request, Legacy.request, the_model. rewrite Hm, Hd.
    reflexivity. }
  split; [exact R|].
  unfold LLM_fetch, Legacy.fetch. rewrite Hs.
  unfold fetch_batch, catch_batch, bind, emit, ret. rewrite R. simpl.
  destruct (createChatCompletion rt (Legacy.request query)) as [e|response];
    simpl.
  - destruct (has_response e); simpl; auto.
  - destruct (choices response), (usage response); auto.
Qed.

End Usage.

Lemma reported_usage_is_logged_witness :
  let rt := Sample.runtime (inr Sample2.answer) Sample.no_stream in
  last_logged_tokens
    (snd (fetch rt Sample2.plain_options (js "hi") true Sample.fresh))
  = Some (JNum (inject_Z (tokens {| text := js " Hi there. ";
                                    tokens := 42 |}))).
Proof.
  apply (@reported_usage_is_logged
           (Sample.runtime (inr Sample2.answer) Sample.no_stream)
           Sample2.plain_options (js "hi") true Sample.fresh
           (snd (LLM_fetch
                   (Sample.runtime (inr Sample2.answer) Sample.no_stream)
                   [message "user" (js "hi")] Sample2.plain_options
                   Sample.fresh))
           [message "user" (js "hi")] [message "user" (js "hi")] []
           {| text := js " Hi there. "; tokens := 42 |}).
  - reflexivity.
  - reflexivity.
  - reflexivity.
  - simpl. discriminate.
Defined.

Lemma first_version_agrees_with_batch_fetch_witness :
  let rt := Sample.runtime (inr Sample2.answer) Sample.no_stream in
  let query := js "hi" in
  batch_request rt [message "user" query] Sample2.plain_options
  = Legacy.request query /\
  match createChatCompletion rt (Legacy.request query) with
  | inr response =>
      fst (Legacy.fetch rt query) = Some response /\
      fst (LLM_fetch rt [message "user" query] Sample2.plain_options
             Sample.fresh)
      = Ret ({| text := hd [] (choices response);
                tokens := usage_or_0 (usage response) |},
             [message "user" query])
  | inl e =>
      fst (Legacy.fetch rt query) = None /\
      fst (LLM_fetch rt [message "user" query] Sample2.plain_options
             Sample.fresh)
      = Ret (error_result rt e, [message "user" query])
  end.
Proof.
  apply (@first_version_agrees_with_batch_fetch
           (Sample.runtime (inr Sample2.answer) Sample.no_stream) (js "hi")
           Sample2.plain_options Sample.fresh).
  - reflexivity.
  - reflexivity.
  - reflexivity.
Defined.
